(** * idb: companion spawner and install streaming, verified against the code

    A shallow embedding of

    - [idb/common/companion_spawner.py] (class [CompanionSpawner]) and
    - [idb/ipc/install.py] (chunk generators, [_install_to_destination],
      the five installers and the relay [daemon]),

    followed by the properties the specification states about them.

    Conventions of the embedding.
    - Python [bytes] are [list byte]; Python [str] used as a path, a udid or a
      url is a Rocq [string]; the [str] that [json.loads] scans is a list of
      Unicode code points ([list N]), obtained by [bytes_decode].
    - A coroutine that touches the outside world is a function in the monad
      [M St A := St -> Outcome A * St]: the state is threaded explicitly and
      is kept when an exception is raised, so that what was done before the
      failure stays observable.
    - Exceptions are the constructors of [exn]. *)

From Stdlib Require Import String Ascii List ZArith NArith Bool Arith Lia.
From Stdlib Require Import Strings.Byte.
Import ListNotations.

Set Implicit Arguments.
Set Warnings "-register-all".
Local Open Scope list_scope.

(* ===================================================================== *)
(** * Python values shared by both modules *)
(* ===================================================================== *)

Definition bytes := list byte.

(** A bytes literal. *)
Definition B (s : string) : bytes := list_byte_of_string s.

(** The double quote character, as a one-character string. *)
Definition dq : string := String "034"%char EmptyString.

(** [InstallRequest.Destination], the enumeration of idb.proto. *)
Inductive Destination : Type := APP | XCTEST | DYLIB | DSYM | FRAMEWORK.

(** The exceptions the two modules raise or let through. *)
Inductive exn : Type :=
| CompanionSpawnerException (msg : string)  (* companion_spawner.py:17 *)
| UnicodeDecodeError                        (* bytes.decode() *)
| JSONDecodeError                           (* json.loads *)
| KeyError (key : string)                   (* dict[key] *)
| TypeError                                 (* subscripting a non-dict *)
| OSError (what : string)                   (* os.makedirs, open, exec *)
| FileNotFoundError (path : string)         (* open / Path.resolve(strict) *)
| AssertionError                            (* none_throws *)
| AttributeError                            (* attribute of None *)
| GRPCError_FAILED_PRECONDITION (path : string) (destination : Destination)
    (* GRPCError(Status.FAILED_PRECONDITION,
                 f"install invalid for {path} {destination}") *)
| Exception (msg : string).                 (* bare Exception(...) *)

Inductive Outcome (A : Type) : Type :=
| Ok (a : A)
| Raise (e : exn).
Arguments Ok {A} a.
Arguments Raise {A} e.

(** State and exception monad. *)
Definition M (St A : Type) : Type := St -> Outcome A * St.

Definition ret {St A} (a : A) : M St A := fun s => (Ok a, s).
Definition raise {St A} (e : exn) : M St A := fun s => (Raise e, s).
Definition bind {St A C} (m : M St A) (k : A -> M St C) : M St C :=
  fun s => match m s with
           | (Ok a, s') => k a s'
           | (Raise e, s') => (Raise e, s')
           end.
Definition get {St} : M St St := fun s => (Ok s, s).
Definition modify {St} (f : St -> St) : M St unit := fun s => (Ok tt, f s).

Declare Scope py_scope.
Delimit Scope py_scope with py.
Notation "x <- m ;; k" := (bind m (fun x => k))
  (at level 61, m at next level, right associativity) : py_scope.
Notation "m ;; k" := (bind m (fun _ => k))
  (at level 61, right associativity) : py_scope.

Definition is_ok {A} (o : Outcome A) : bool :=
  match o with Ok _ => true | Raise _ => false end.

(* ===================================================================== *)
(** * [bytes.decode()] : strict UTF-8 *)
(* ===================================================================== *)

Module Utf8.

Local Open Scope N_scope.

Definition between (lo hi b : N) : bool := (lo <=? b) && (b <=? hi).

(** Continuation byte [10xxxxxx]. *)
Definition cont (b : N) : bool := between 128 191 b.

(** Strict decoding: overlong forms, surrogates and code points above
    U+10FFFF are rejected, as CPython does. [None] is
    [UnicodeDecodeError]. *)
Fixpoint decode (bs : list N) : option (list N) :=
  match bs with
  | [] => Some []
  | b0 :: r0 =>
    if b0 <? 128 then option_map (cons b0) (decode r0)
    else if between 194 223 b0 then
      match r0 with
      | b1 :: r1 =>
        if cont b1
        then option_map (cons ((b0 - 192) * 64 + (b1 - 128))) (decode r1)
        else None
      | _ => None
      end
    else if between 224 239 b0 then
      match r0 with
      | b1 :: b2 :: r2 =>
        if between (if b0 =? 224 then 160 else 128)
                   (if b0 =? 237 then 159 else 191) b1 && cont b2
        then option_map
               (cons ((b0 - 224) * 4096 + (b1 - 128) * 64 + (b2 - 128)))
               (decode r2)
        else None
      | _ => None
      end
    else if between 240 244 b0 then
      match r0 with
      | b1 :: b2 :: b3 :: r3 =>
        if between (if b0 =? 240 then 144 else 128)
                   (if b0 =? 244 then 143 else 191) b1
           && cont b2 && cont b3
        then option_map
               (cons ((b0 - 240) * 262144 + (b1 - 128) * 4096
                      + (b2 - 128) * 64 + (b3 - 128)))
               (decode r3)
        else None
      | _ => None
      end
    else None
  end.

End Utf8.

(** The text [json.loads] and the scanner work on. *)
Definition pystr := list N.

Definition bytes_decode (b : bytes) : option pystr :=
  Utf8.decode (map Byte.to_N b).

(** Code points of an ASCII literal. *)
Definition U (s : string) : pystr := map Byte.to_N (list_byte_of_string s).

(* ===================================================================== *)
(** * [json.loads] *)
(* ===================================================================== *)

(** The standard library's decoder, after CPython's [json.decoder] and the
    scanner of [_json.c] (default settings: [strict=True], no hooks).
    Outside the model: the recursion limit and the limit on the number of
    digits of an integer literal. *)
Module Json.

Local Open Scope N_scope.

(** What [float(...)] is given: a decimal literal [(-1)^neg * mant * 10^exp10],
    or one of the three named constants. *)
Inductive pyfloat : Type :=
| FNaN
| FInf (neg : bool)
| FDec (neg : bool) (mant : N) (exp10 : Z).

Inductive json : Type :=
| JNull
| JBool (b : bool)
| JInt (z : Z)
| JFloat (f : pyfloat)
| JStr (s : pystr)
| JArr (items : list json)
| JObj (members : list (pystr * json)).

(** ** Truth value testing *)

(** A decimal literal converts to [0.0] exactly when its value is at most
    [2^-1075], half of the smallest subnormal double. *)
Definition float_truthy (f : pyfloat) : bool :=
  match f with
  | FNaN => true
  | FInf _ => true
  | FDec _ mant e =>
    if mant =? 0 then false
    else if (0 <=? e)%Z then true
    else (10 ^ (- e) <? Z.of_N mant * 2 ^ 1075)%Z
  end.

Definition truthy (v : json) : bool :=
  match v with
  | JNull => false
  | JBool b => b
  | JInt z => negb (z =? 0)%Z
  | JFloat f => float_truthy f
  | JStr s => match s with [] => false | _ => true end
  | JArr l => match l with [] => false | _ => true end
  | JObj l => match l with [] => false | _ => true end
  end.

(** ** dict lookup; a later duplicate key has replaced the earlier one *)

Definition pystr_eqb (a b : pystr) : bool :=
  if list_eq_dec N.eq_dec a b then true else false.

Fixpoint dict_get (k : pystr) (members : list (pystr * json)) : option json :=
  match members with
  | [] => None
  | (k', v) :: rest =>
    match dict_get k rest with
    | Some v' => Some v'
    | None => if pystr_eqb k k' then Some v else None
    end
  end.

(** ** Scanner *)

Definition is_ws (c : N) : bool :=
  (c =? 32) || (c =? 9) || (c =? 10) || (c =? 13).

Fixpoint skip_ws (s : pystr) : pystr :=
  match s with
  | c :: r => if is_ws c then skip_ws r else s
  | [] => []
  end.

Definition is_digit (c : N) : bool := (48 <=? c) && (c <=? 57).

Definition hex_val (c : N) : option N :=
  if is_digit c then Some (c - 48)
  else if (97 <=? c) && (c <=? 102) then Some (c - 87)
  else if (65 <=? c) && (c <=? 70) then Some (c - 55)
  else None.

Definition hex4 (a b c d : N) : option N :=
  match hex_val a, hex_val b, hex_val c, hex_val d with
  | Some x, Some y, Some z, Some w => Some (((x * 16 + y) * 16 + z) * 16 + w)
  | _, _, _, _ => None
  end.

Definition simple_escape (e : N) : option N :=
  if e =? 34 then Some 34           (* backslash quote *)
  else if e =? 92 then Some 92      (* backslash backslash *)
  else if e =? 47 then Some 47      (* backslash slash *)
  else if e =? 98 then Some 8       (* backslash b *)
  else if e =? 102 then Some 12     (* backslash f *)
  else if e =? 110 then Some 10     (* backslash n *)
  else if e =? 114 then Some 13     (* backslash r *)
  else if e =? 116 then Some 9      (* backslash t *)
  else None.

Definition is_high_surrogate (u : N) : bool := (55296 <=? u) && (u <=? 56319).
Definition is_low_surrogate (u : N) : bool := (56320 <=? u) && (u <=? 57343).
Definition join_surrogates (hi lo : N) : N :=
  65536 + (hi - 55296) * 1024 + (lo - 56320).

Definition push (c : N) (r : option (pystr * pystr)) : option (pystr * pystr) :=
  match r with
  | Some (k, rest) => Some (c :: k, rest)
  | None => None
  end.

(** [scanstring s] reads a string body, [s] starting right after the opening
    quote; it gives the content and what follows the closing quote. *)
Fixpoint scanstring (s : pystr) : option (pystr * pystr) :=
  match s with
  | [] => None
  | c :: r =>
    if c =? 34 then Some ([], r)
    else if c =? 92 then
      match r with
      | [] => None
      | e :: r1 =>
        if e =? 117 then
          match r1 with
          | h1 :: h2 :: h3 :: h4 :: r2 =>
            match hex4 h1 h2 h3 h4 with
            | None => None
            | Some u =>
              if is_high_surrogate u then
                match r2 with
                | b :: u' :: k1 :: k2 :: k3 :: k4 :: r3 =>
                  if (b =? 92) && (u' =? 117) then
                    match hex4 k1 k2 k3 k4 with
                    | None => None
                    | Some u2 =>
                      if is_low_surrogate u2
                      then push (join_surrogates u u2) (scanstring r3)
                      else push u (scanstring r2)
                    end
                  else push u (scanstring r2)
                | _ => push u (scanstring r2)
                end
              else push u (scanstring r2)
            end
          | _ => None
          end
        else
          match simple_escape e with
          | Some x => push x (scanstring r1)
          | None => None
          end
      end
    else if c <? 32 then None
    else push c (scanstring r)
  end.

(** Leading decimal digits of [s], and the rest. *)
Fixpoint span_digits (s : pystr) : list N * pystr :=
  match s with
  | c :: r =>
    if is_digit c
    then let (ds, rest) := span_digits r in (c :: ds, rest)
    else ([], s)
  | [] => ([], [])
  end.

Definition digits_value (ds : list N) : N :=
  fold_left (fun acc d => acc * 10 + (d - 48)) ds 0.

(** The optional fraction: a dot followed by at least one digit. *)
Definition scan_frac (s : pystr) : list N * pystr :=
  match s with
  | c :: r =>
    if c =? 46 then
      match span_digits r with
      | ([], _) => ([], s)
      | (ds, rest) => (ds, rest)
      end
    else ([], s)
  | [] => ([], s)
  end.

(** The optional exponent: e or E, an optional sign, at least one digit. *)
Definition scan_exp (s : pystr) : option Z * pystr :=
  match s with
  | c :: r =>
    if (c =? 101) || (c =? 69) then
      let (neg, r1) :=
        match r with
        | sg :: r' => if sg =? 45 then (true, r')
                      else if sg =? 43 then (false, r') else (false, r)
        | [] => (false, r)
        end in
      match span_digits r1 with
      | ([], _) => (None, s)
      | (ds, rest) =>
        (Some (if neg then (- Z.of_N (digits_value ds))%Z
               else Z.of_N (digits_value ds)), rest)
      end
    else (None, s)
  | [] => (None, s)
  end.

Definition finish_number (neg : bool) (int_ds : list N) (s : pystr)
  : json * pystr :=
  let (frac_ds, s1) := scan_frac s in
  let (ex, s2) := scan_exp s1 in
  match frac_ds, ex with
  | [], None =>
    (JInt (if neg then (- Z.of_N (digits_value int_ds))%Z
           else Z.of_N (digits_value int_ds)), s2)
  | _, _ =>
    (JFloat (FDec neg (digits_value (int_ds ++ frac_ds))
                  (match ex with Some e => e | None => 0%Z end
                   - Z.of_nat (length frac_ds))%Z), s2)
  end.

(** A number: an optional minus sign, then 0 or a non-zero digit followed by
    digits, then the optional fraction and the optional exponent. *)
Definition match_number (s : pystr) : option (json * pystr) :=
  let (neg, s1) :=
    match s with
    | c :: r => if c =? 45 then (true, r) else (false, s)
    | [] => (false, s)
    end in
  match s1 with
  | d :: r =>
    if d =? 48 then Some (finish_number neg [d] r)
    else if is_digit d then
      let (ds, rest) := span_digits r in
      Some (finish_number neg (d :: ds) rest)
    else None
  | [] => None
  end.

Fixpoint strip_prefix (p s : pystr) : option pystr :=
  match p, s with
  | [], _ => Some s
  | a :: p', b :: s' => if a =? b then strip_prefix p' s' else None
  | _ :: _, [] => None
  end.

(** Named constants, tried before numbers. *)
Definition match_constant (s : pystr) : option (json * pystr) :=
  match strip_prefix (U "null") s with Some r => Some (JNull, r) | None =>
  match strip_prefix (U "true") s with Some r => Some (JBool true, r) | None =>
  match strip_prefix (U "false") s with Some r => Some (JBool false, r) | None =>
  match strip_prefix (U "NaN") s with Some r => Some (JFloat FNaN, r) | None =>
  match strip_prefix (U "Infinity") s with
  | Some r => Some (JFloat (FInf false), r) | None =>
  match strip_prefix (U "-Infinity") s with
  | Some r => Some (JFloat (FInf true), r) | None => None
  end end end end end end.

Inductive parse : Type :=
| POk (v : json) (rest : pystr)
| PErr                      (* JSONDecodeError *)
| PFuel.                    (* recursion budget of the model used up *)

(** [scan_once] reads one value at the head of [s].  [parse_members] reads
    the members of a non-empty object, [s] at the opening quote of a key;
    [parse_elements] the elements of a non-empty array, [s] at an element. *)
Fixpoint scan_once (fuel : nat) (s : pystr) {struct fuel} : parse :=
  match fuel with
  | O => PFuel
  | S f =>
    match s with
    | [] => PErr
    | c :: r =>
      if c =? 34 then
        match scanstring r with
        | Some (k, r') => POk (JStr k) r'
        | None => PErr
        end
      else if c =? 123 then
        match skip_ws r with
        | c' :: r' =>
          if c' =? 125 then POk (JObj []) r' else parse_members f (c' :: r') []
        | [] => PErr
        end
      else if c =? 91 then
        match skip_ws r with
        | c' :: r' =>
          if c' =? 93 then POk (JArr []) r' else parse_elements f (c' :: r') []
        | [] => PErr
        end
      else
        match match_constant s with
        | Some (v, r') => POk v r'
        | None =>
          match match_number s with
          | Some (v, r') => POk v r'
          | None => PErr
          end
        end
    end
  end
with parse_members (fuel : nat) (s : pystr) (acc : list (pystr * json))
       {struct fuel} : parse :=
  match fuel with
  | O => PFuel
  | S f =>
    match s with
    | [] => PErr
    | c :: r =>
      if c =? 34 then
        match scanstring r with
        | None => PErr
        | Some (k, r1) =>
          match skip_ws r1 with
          | [] => PErr
          | c2 :: r2 =>
            if c2 =? 58 then
              match scan_once f (skip_ws r2) with
              | POk v r3 =>
                match skip_ws r3 with
                | [] => PErr
                | c3 :: r4 =>
                  if c3 =? 125 then POk (JObj (acc ++ [(k, v)])) r4
                  else if c3 =? 44
                       then parse_members f (skip_ws r4) (acc ++ [(k, v)])
                       else PErr
                end
              | PErr => PErr
              | PFuel => PFuel
              end
            else PErr
          end
        end
      else PErr
    end
  end
with parse_elements (fuel : nat) (s : pystr) (acc : list json)
       {struct fuel} : parse :=
  match fuel with
  | O => PFuel
  | S f =>
    match scan_once f s with
    | POk v r1 =>
      match skip_ws r1 with
      | [] => PErr
      | c :: r2 =>
        if c =? 93 then POk (JArr (acc ++ [v])) r2
        else if c =? 44 then parse_elements f (skip_ws r2) (acc ++ [v])
        else PErr
      end
    | PErr => PErr
    | PFuel => PFuel
    end
  end.

(** [json.loads(s)]: one value, surrounded by optional whitespace, and
    nothing else.  [None] is [JSONDecodeError]. *)
Definition loads (s : pystr) : option json :=
  match scan_once (S (2 * length s)) (skip_ws s) with
  | POk v rest => match skip_ws rest with [] => Some v | _ => None end
  | PErr => None
  | PFuel => None
  end.

End Json.
Export Json(json(..), pyfloat(..)).

(* ===================================================================== *)
(** * [idb/common/companion_spawner.py] *)
(* ===================================================================== *)

Module Spawner.

Import Json.
Local Open Scope string_scope.
Local Open Scope list_scope.

(** An [asyncio.subprocess.Process]: its pid and, when it has a stdout pipe,
    the lines [readline] will hand out before the end of the stream. *)
Record Process : Type := mkProcess {
  pid : Z;
  stdout : option (list bytes)
}.

(** Instance attributes of [CompanionSpawner] ([__init__], lines 22-25). *)
Record CompanionSpawner : Type := mkSpawner {
  companion_path : string;
  companion_processes : list Process
}.

(** What [spawn_companion] does to the world outside the object. *)
Inductive Effect : Type :=
| Makedirs (name : string)              (* os.makedirs(name, exist_ok=True) *)
| OpenAppend (path : string)            (* open(path, "a") *)
| CloseFile (path : string)             (* leaving the with block *)
| Exec (cmd : list string).             (* asyncio.create_subprocess_exec *)

(** How the operating system answers. *)
Record OS : Type := mkOS {
  os_makedirs : string -> option exn;
  os_open_append : string -> option exn;
  os_exec : list string -> exn + Process
}.

Record State : Type := mkState {
  self : CompanionSpawner;
  trace : list Effect
}.

Definition emit (e : Effect) : M State unit :=
  modify (fun st => mkState (self st) (trace st ++ [e])).

Definition HandshakeFailure : exn :=
  CompanionSpawnerException "failed to spawn companion".

Definition ConfigurationError (target_udid : string) : exn :=
  CompanionSpawnerException
    ("couldn't instantiate a companion for " ++ target_udid
     ++ " because                 the companion_path is not available").

(** [update["grpc_port"]] *)
Definition getitem (update : json) (key : string) : Outcome json :=
  match update with
  | JObj members =>
    match dict_get (U key) members with
    | Some v => Ok v
    | None => Raise (KeyError key)
    end
  | _ => Raise TypeError
  end.

(** Truth value of a [bytes] object. *)
Definition bytes_truthy (b : bytes) : bool :=
  match b with [] => false | _ => true end.

(** [StreamReader.readline]: the next line, or the empty bytes at the end. *)
Definition readline (stream : list bytes) : bytes * list bytes :=
  match stream with
  | [] => ([], [])
  | line :: rest => (line, rest)
  end.

(** [_read_stream] (lines 27-40).  The loop is the recursion; [port] is
    still its initial [0] on the [else: break] path. *)
Fixpoint _read_stream (stream : list bytes) : Outcome json :=
  match stream with
  | [] => Ok (JInt 0)
  | line :: rest =>
    if bytes_truthy line then
      match bytes_decode line with
      | None => Raise UnicodeDecodeError
      | Some text =>
        match loads text with
        | None => Raise JSONDecodeError
        | Some update =>
          if truthy update
          then getitem update "grpc_port"
          else _read_stream rest
        end
      end
    else Ok (JInt 0)
  end.

Section WithConstants.

(** [idb.common.constants.IDB_LOGS_PATH] *)
Variable IDB_LOGS_PATH : string.

Local Open Scope py_scope.

Definition lift_os (r : option exn) : M State unit :=
  match r with
  | None => ret tt
  | Some e => raise e
  end.

(** [_log_file_path] (lines 42-44) *)
Definition _log_file_path (os : OS) (target_udid : string) : M State string :=
  emit (Makedirs IDB_LOGS_PATH) ;;
  lift_os (os_makedirs os IDB_LOGS_PATH) ;;
  ret (IDB_LOGS_PATH ++ "/" ++ target_udid)%string.

(** [with open(path, "a") as log_file: body]: the file is closed on the
    way out, whether [body] returns or raises. *)
Definition with_open_append {A} (os : OS) (path : string) (body : M State A)
  : M State A :=
  emit (OpenAppend path) ;;
  lift_os (os_open_append os path) ;;
  (fun st =>
     let (r, st') := body st in
     (r, mkState (self st') (trace st' ++ [CloseFile path]))).

Definition create_subprocess_exec (os : OS) (cmd : list string)
  : M State Process :=
  emit (Exec cmd) ;;
  match os_exec os cmd with
  | inl e => raise e
  | inr p => ret p
  end.

(** [self.companion_processes.append(process)] *)
Definition append_process (p : Process) : M State unit :=
  modify (fun st =>
    mkState (mkSpawner (companion_path (self st))
                       (companion_processes (self st) ++ [p]))
            (trace st)).

Definition lift_outcome {A} (o : Outcome A) : M State A :=
  fun st => (o, st).

(** [spawn_companion] (lines 50-78) *)
Definition spawn_companion (os : OS) (target_udid : string) : M State json :=
  st <- get ;;
  if (companion_path (self st) =? EmptyString)%string
  then raise (ConfigurationError target_udid)
  else
    let cmd := [companion_path (self st); "--udid"; target_udid;
                "--grpc-port"; "0"] in
    path <- _log_file_path os target_udid ;;
    with_open_append os path
      (process <- create_subprocess_exec os cmd ;;
       append_process process ;;
       match stdout process with
       | Some out =>
         port <- lift_outcome (_read_stream out) ;;
         if negb (truthy port)
         then raise HandshakeFailure
         else ret port
       | None => raise (CompanionSpawnerException "process has no stdout")
       end).

End WithConstants.

End Spawner.

(* ===================================================================== *)
(** * [idb/ipc/install.py] *)
(* ===================================================================== *)

Module Install.

Local Open Scope string_scope.
Local Open Scope list_scope.

(** ** Messages *)

(** Modelled from the spec: the protobuf messages of [idb.grpc.idb_pb2]
    (section 6, streaming install protocol).  Each message is a oneof; a
    field that is not the populated one reads as its default, the empty
    string or the empty bytes. *)
Inductive Payload : Type :=
| Payload_unset
| Payload_file_path (file_path : string)
| Payload_data (data : bytes)
| Payload_url (url : string).

Inductive InstallRequest : Type :=
| Request_unset
| Request_destination (destination : Destination)
| Request_payload (payload : Payload)
| Request_name_hint (name_hint : string).

Record InstallResponse : Type := mkResponse {
  response_name : string;
  response_uuid : string
}.

(** [idb.common.types.InstalledArtifact] *)
Record InstalledArtifact : Type := mkArtifact {
  name : string;
  uuid : string
}.

Definition get_payload (m : InstallRequest) : Payload :=
  match m with Request_payload p => p | _ => Payload_unset end.
Definition get_destination (m : InstallRequest) : Destination :=
  match m with Request_destination d => d | _ => APP end.
Definition get_file_path (p : Payload) : string :=
  match p with Payload_file_path s => s | _ => EmptyString end.
Definition get_url (p : Payload) : string :=
  match p with Payload_url s => s | _ => EmptyString end.
Definition get_data (p : Payload) : bytes :=
  match p with Payload_data b => b | _ => [] end.

(** ** Streams *)

(** What happens on the stream opened to the downstream peer, in order. *)
Inductive StreamEvent : Type :=
| OpenStream                        (* client.stub.install.open() *)
| SendMessage (m : InstallRequest)  (* stream.send_message(m) *)
| StreamEnd                         (* stream.end() *)
| RecvMessage.                      (* stream.recv_message() *)

(** [idb.grpc.types.CompanionClient]: whether the companion is local, and
    the peer behind [client.stub.install], which answers the requests it was
    sent with a response, or closes without one. *)
Record CompanionClient : Type := mkClient {
  is_local : bool;
  peer : list InstallRequest -> option InstallResponse
}.

(** The state the coroutines of this module act on: the stream to the peer,
    and for the relay the inbound stream, as the messages still to be
    received and the responses written back. *)
Record World : Type := mkWorld {
  downstream : list StreamEvent;
  inbound : list InstallRequest;
  upstream : list InstallResponse
}.

Definition forwarded (evs : list StreamEvent) : list InstallRequest :=
  flat_map (fun e => match e with SendMessage m => [m] | _ => [] end) evs.

(** The events of the stream opened last. *)
Definition current_session (evs : list StreamEvent) : list StreamEvent :=
  fold_left (fun acc e => match e with
                          | OpenStream => []
                          | _ => acc ++ [e]
                          end) evs [].

Definition log_event (e : StreamEvent) : M World unit :=
  modify (fun w => mkWorld (downstream w ++ [e]) (inbound w) (upstream w)).

Definition open_stream : M World unit := log_event OpenStream.
Definition send_message (m : InstallRequest) : M World unit :=
  log_event (SendMessage m).
Definition stream_end : M World unit := log_event StreamEnd.

Local Open Scope py_scope.

(** [forward_stream.recv_message()]: the peer's answer to what it was sent
    on this stream. *)
Definition recv_message (client : CompanionClient)
  : M World (option InstallResponse) :=
  log_event RecvMessage ;;
  w <- get ;;
  ret (peer client (forwarded (current_session (downstream w)))).

(** [stream.recv_message()] on the inbound stream; [None] once it ended. *)
Definition inbound_recv_message : M World (option InstallRequest) :=
  fun w => match inbound w with
           | [] => (Ok None, w)
           | m :: rest => (Ok (Some m), mkWorld (downstream w) rest (upstream w))
           end.

(** [stream.send_message(response)] on the inbound stream. *)
Definition inbound_send_message (r : InstallResponse) : M World unit :=
  modify (fun w => mkWorld (downstream w) (inbound w) (upstream w ++ [r])).

(** [idb.utils.typing.none_throws] *)
Definition none_throws {St A} (o : option A) : M St A :=
  match o with
  | Some a => ret a
  | None => raise AssertionError
  end.

(** ** Chunk generators *)

Definition CHUNK_SIZE : nat := N.to_nat 16384.

(** One resumption of an async generator. *)
Inductive Step : Type :=
| Yield (m : InstallRequest)
| StopAsyncIteration
| Throw (e : exn).

(** A generator that reads a byte stream in blocks: suspended with the bytes
    not read yet, or finished. *)
Inductive BlockGen : Type :=
| Reading (rest : bytes)
| Finished.

(** [file.read(CHUNK_SIZE)] on a file or buffered byte stream: the next
    [CHUNK_SIZE] bytes, fewer at the end, none after it.  A raw, unbuffered
    stream may return fewer bytes before the end; such streams are not
    covered, and what is proved below of block counts and sizes is proved
    of files. *)
Definition read (n : nat) (f : bytes) : bytes * bytes :=
  (firstn n f, skipn n f).

(** The loop body shared by lines 33-38 and 91-96. *)
Definition read_block (f : bytes) : Step * BlockGen :=
  let (chunk, f') := read CHUNK_SIZE f in
  match chunk with
  | [] => (StopAsyncIteration, Finished)
  | _ => (Yield (Request_payload (Payload_data chunk)), Reading f')
  end.

(** [_generate_io_chunks] (lines 87-97), one [__anext__]. *)
Definition _generate_io_chunks (g : BlockGen) : Step * BlockGen :=
  match g with
  | Reading f => read_block f
  | Finished => (StopAsyncIteration, Finished)
  end.

(** [_generate_ipa_chunks] (lines 28-38): created with the path, it opens
    the file when first resumed. *)
Inductive IpaGen : Type :=
| Created (ipa_path : string)
| Opened (g : BlockGen).

Definition _generate_ipa_chunks (open_file : string -> option bytes)
           (g : IpaGen) : Step * IpaGen :=
  match g with
  | Created ipa_path =>
    match open_file ipa_path with
    | None => (Throw (FileNotFoundError ipa_path), Opened Finished)
    | Some f => let (s, g') := read_block f in (s, Opened g')
    end
  | Opened g => let (s, g') := _generate_io_chunks g in (s, Opened g')
  end.

(** What a generator gives when it is iterated to its end: the messages it
    yields and the exception it ends with, if any. *)
Definition Drained : Type := list InstallRequest * option exn.

(** [async for message in generator], with a bound on the resumptions. *)
Fixpoint iterate {G} (next : G -> Step * G) (fuel : nat) (g : G)
  : option (Drained * G) :=
  match fuel with
  | O => None
  | S fuel' =>
    match next g with
    | (Yield m, g') =>
      match iterate next fuel' g' with
      | Some ((ms, e), g'') => Some ((m :: ms, e), g'')
      | None => None
      end
    | (StopAsyncIteration, g') => Some (([], None), g')
    | (Throw e, g') => Some (([], Some e), g')
    end
  end.

(** The chunks of an external byte-chunk generator, and the exception it
    ends with, if any. *)
Definition Chunks : Type := list bytes * option exn.

(** What this module calls and does not define. *)
Record Env : Type := mkEnv {
  (** [urllib.parse.urlparse(s).scheme] *)
  url_scheme : string -> string;
  (** [Path(s).resolve(strict=True)]: the absolute path, when it exists *)
  resolve : string -> option string;
  (** content of the file [aiofiles.open(path, "r+b")] opens *)
  open_file : string -> option bytes;
  (** [idb.common.tar.generate_tar] *)
  generate_tar : list string -> Chunks;
  (** [idb.common.gzip.generate_gzip] *)
  generate_gzip : string -> Chunks;
  (** [idb.common.xctest.xctest_paths_to_tar] *)
  xctest_paths_to_tar : string -> Outcome (list string)
}.

Definition data_message (chunk : bytes) : InstallRequest :=
  Request_payload (Payload_data chunk).

(** ** [os.path.basename]: what follows the last slash *)

Fixpoint basename_from (p cur : string) : string :=
  match p with
  | EmptyString => cur
  | String c r =>
    if Ascii.eqb c "/"%char
    then basename_from r EmptyString
    else basename_from r (cur ++ String c EmptyString)%string
  end.

Definition basename (p : string) : string := basename_from p EmptyString.

(** [str.endswith] *)
Definition endswith (s suffix : string) : bool :=
  let n := String.length s in
  let m := String.length suffix in
  (m <=? n)%nat && (substring (n - m) m s =? suffix)%string.

(** ** Generators over external chunk sources *)

(** A generator relaying an external chunk generator: not started yet,
    or holding the chunks still to come. *)
Inductive RelayGen (A : Type) : Type :=
| NotStarted (arg : A)
| Relaying (rest : Chunks)
| Exhausted.
Arguments NotStarted {A} arg.
Arguments Relaying {A} rest.
Arguments Exhausted {A}.

(** [async for chunk in source: yield InstallRequest(payload=Payload(data=chunk))] *)
Definition relay_chunks {A} (source : Chunks) : Step * RelayGen A :=
  match source with
  | (chunk :: rest, e) => (Yield (data_message chunk), Relaying (rest, e))
  | ([], Some e) => (Throw e, Exhausted)
  | ([], None) => (StopAsyncIteration, Exhausted)
  end.

(** [_generate_dylib_chunks] (lines 59-66), one [__anext__]. *)
Definition _generate_dylib_chunks (env : Env) (g : RelayGen string)
  : Step * RelayGen string :=
  match g with
  | NotStarted path =>
    (Yield (Request_name_hint (basename path)),
     Relaying (generate_gzip env path))
  | Relaying source => relay_chunks source
  | Exhausted => (StopAsyncIteration, Exhausted)
  end.

(** [_generate_app_chunks], [_generate_dsym_chunks] and
    [_generate_framework_chunks] (lines 41-47, 69-84) have one body:
    the tar of the single path. *)
Definition _generate_tar_chunks (env : Env) (g : RelayGen string)
  : Step * RelayGen string :=
  match g with
  | NotStarted path => relay_chunks (generate_tar env [path])
  | Relaying source => relay_chunks source
  | Exhausted => (StopAsyncIteration, Exhausted)
  end.

Definition _generate_app_chunks := _generate_tar_chunks.
Definition _generate_dsym_chunks := _generate_tar_chunks.
Definition _generate_framework_chunks := _generate_tar_chunks.

(** [_generate_xctest_chunks] (lines 50-56) *)
Definition _generate_xctest_chunks (env : Env) (g : RelayGen string)
  : Step * RelayGen string :=
  match g with
  | NotStarted path =>
    match xctest_paths_to_tar env path with
    | Ok paths => relay_chunks (generate_tar env paths)
    | Raise e => (Throw e, Exhausted)
    end
  | Relaying source => relay_chunks source
  | Exhausted => (StopAsyncIteration, Exhausted)
  end.

(** ** Iterating a generator to its end *)

Definition drained {G} (r : option (Drained * G)) : Drained :=
  match r with
  | Some (d, _) => d
  | None => ([], None)
  end.

Definition chunks_bound (c : Chunks) : nat := S (List.length (fst c)).

Definition drain_io (io : bytes) : Drained :=
  drained (iterate _generate_io_chunks (S (List.length io)) (Reading io)).

Definition drain_ipa (env : Env) (ipa_path : string) : Drained :=
  drained (iterate (_generate_ipa_chunks (open_file env))
                   (match open_file env ipa_path with
                    | Some f => S (List.length f)
                    | None => 1
                    end)
                   (Created ipa_path)).

Definition drain_dylib (env : Env) (path : string) : Drained :=
  drained (iterate (_generate_dylib_chunks env)
                   (S (chunks_bound (generate_gzip env path)))
                   (NotStarted path)).

Definition drain_tar (env : Env) (path : string) : Drained :=
  drained (iterate (_generate_tar_chunks env)
                   (chunks_bound (generate_tar env [path]))
                   (NotStarted path)).

Definition drain_xctest (env : Env) (path : string) : Drained :=
  drained (iterate (_generate_xctest_chunks env)
                   (match xctest_paths_to_tar env path with
                    | Ok paths => chunks_bound (generate_tar env paths)
                    | Raise _ => 1
                    end)
                   (NotStarted path)).

(** [_generate_binary_chunks] (lines 100-119).  It picks the generator,
    here given by what iterating it yields, or raises. *)
Definition _generate_binary_chunks (env : Env) (path : string)
           (destination : Destination) : Outcome Drained :=
  match destination with
  | APP =>
    if endswith path ".ipa" then Ok (drain_ipa env path)
    else if endswith path ".app" then Ok (drain_tar env path)
    else Raise (GRPCError_FAILED_PRECONDITION path destination)
  | XCTEST => Ok (drain_xctest env path)
  | DYLIB => Ok (drain_dylib env path)
  | DSYM => Ok (drain_tar env path)
  | FRAMEWORK => Ok (drain_tar env path)
  end.

(** ** Sending *)

Definition lift_outcome {A} (o : Outcome A) : M World A := fun w => (o, w).

Fixpoint send_all (ms : list InstallRequest) : M World unit :=
  match ms with
  | [] => ret tt
  | m :: rest => send_message m ;; send_all rest
  end.

(** Modelled from the spec: [idb.grpc.stream.drain_to_stream], which is not
    among the sources.  Section 4.3: the sequence is drained into the
    stream, stream-end is signalled, and exactly one response is read.  An
    exception of the generator leaves through the caller after the messages
    before it were sent; a missing response is an error, as in the sibling
    branch of [daemon] (line 196). *)
Definition drain_to_stream (client : CompanionClient) (generator : Drained)
  : M World InstallResponse :=
  send_all (fst generator) ;;
  match snd generator with
  | Some e => raise e
  | None =>
    stream_end ;;
    response <- recv_message client ;;
    none_throws response
  end.

(** ** The installers *)

(** [Bundle = Union[str, IO[bytes]]]; an open byte stream is the bytes it
    still holds. *)
Inductive Bundle : Type :=
| BundleStr (s : string)
| BundleIO (io : bytes).

Definition path_resolve_strict (env : Env) (s : string) : Outcome string :=
  match resolve env s with
  | Some p => Ok p
  | None => Raise (FileNotFoundError s)
  end.

(** [_install_to_destination] (lines 122-147) *)
Definition _install_to_destination (env : Env) (client : CompanionClient)
           (bundle : Bundle) (destination : Destination)
  : M World InstalledArtifact :=
  match bundle with
  | BundleStr s =>
    payload <-
      (if (url_scheme env s =? EmptyString)%string
       then (p <- lift_outcome (path_resolve_strict env s) ;;
             ret (Payload_file_path p))
       else ret (Payload_url s)) ;;
    open_stream ;;
    send_message (Request_destination destination) ;;
    send_message (Request_payload payload) ;;
    stream_end ;;
    response <- recv_message client ;;
    match response with
    | Some r => ret (mkArtifact (response_name r) (response_uuid r))
    | None => raise AttributeError
    end
  | BundleIO io =>
    open_stream ;;
    send_message (Request_destination destination) ;;
    response <- drain_to_stream client (drain_io io) ;;
    ret (mkArtifact (response_name response) (response_uuid response))
  end.

(** Lines 150-179. *)
Definition install (env : Env) (client : CompanionClient) (bundle : Bundle)
  : M World InstalledArtifact :=
  _install_to_destination env client bundle APP.

Definition install_xctest (env : Env) (client : CompanionClient)
           (bundle : Bundle) : M World InstalledArtifact :=
  _install_to_destination env client bundle XCTEST.

Definition install_dylib (env : Env) (client : CompanionClient)
           (dylib : Bundle) : M World InstalledArtifact :=
  _install_to_destination env client dylib DYLIB.

Definition install_dsym (env : Env) (client : CompanionClient)
           (dsym : Bundle) : M World InstalledArtifact :=
  _install_to_destination env client dsym DSYM.

Definition install_framework (env : Env) (client : CompanionClient)
           (framework_path : Bundle) : M World InstalledArtifact :=
  _install_to_destination env client framework_path FRAMEWORK.

(** ** The relay *)

Definition UnrecognizedPayloadError : exn :=
  Exception "Unrecognised payload message".

(** [async for message in stream] over the inbound stream: every message
    still to come. *)
Definition drain_inbound : M World Drained :=
  fun w => (Ok (inbound w, None), mkWorld (downstream w) [] (upstream w)).

Definition str_truthy (s : string) : bool := negb (s =? EmptyString)%string.
Definition bytes_truthy (b : bytes) : bool :=
  match b with [] => false | _ => true end.

(** [daemon] (lines 182-212) *)
Definition daemon (env : Env) (client : CompanionClient) : M World unit :=
  m1 <- inbound_recv_message ;;
  destination_message <- none_throws m1 ;;
  m2 <- inbound_recv_message ;;
  payload_message <- none_throws m2 ;;
  let file_path := get_file_path (get_payload payload_message) in
  let url := get_url (get_payload payload_message) in
  let data := get_data (get_payload payload_message) in
  let destination := get_destination destination_message in
  open_stream ;;
  send_message destination_message ;;
  response <-
    (if is_local client || negb (String.length url =? 0)%nat then
       send_message payload_message ;;
       stream_end ;;
       r <- recv_message client ;;
       none_throws r
     else if str_truthy file_path then
       generator <- lift_outcome
                      (_generate_binary_chunks env file_path destination) ;;
       drain_to_stream client generator
     else if bytes_truthy data then
       send_message payload_message ;;
       generator <- drain_inbound ;;
       drain_to_stream client generator
     else raise UnrecognizedPayloadError) ;;
  inbound_send_message response.

End Install.

Unset Implicit Arguments.

(* ===================================================================== *)
(** * Vocabulary of the statements, and sample inputs *)
(* ===================================================================== *)

Module SpawnerSpec.

Import Json Spawner.
Local Open Scope string_scope.
Local Open Scope list_scope.

(** [json.loads(line.decode())], when neither step raises. *)
Definition update_of (line : bytes) : option json :=
  match bytes_decode line with
  | Some text => loads text
  | None => None
  end.

(** A line that is read and decodes to a falsy JSON value. *)
Definition falsy_line (line : bytes) : bool :=
  bytes_truthy line &&
  match update_of line with
  | Some update => negb (truthy update)
  | None => false
  end.

(** The value a line announces: it is a JSON object with the key
    [grpc_port]. *)
Definition announced (line : bytes) : option json :=
  match update_of line with
  | Some (JObj members) => dict_get (U "grpc_port") members
  | _ => None
  end.

Definition has_grpc_port (line : bytes) : bool :=
  match announced line with Some _ => true | None => false end.

(** The command line of lines 56-62. *)
Definition command (path target_udid : string) : list string :=
  [path; "--udid"; target_udid; "--grpc-port"; "0"].

(** The path [_log_file_path] returns. *)
Definition log_file (logs target_udid : string) : string :=
  logs ++ "/" ++ target_udid.

(** The companion executable is configured, the log file could be opened
    and the operating system created process [p]. *)
Definition launched (logs : string) (os : OS) (st : State)
           (target_udid : string) (p : Process) : Prop :=
  companion_path (self st) <> EmptyString
  /\ os_makedirs os logs = None
  /\ os_open_append os (log_file logs target_udid) = None
  /\ os_exec os (command (companion_path (self st)) target_udid) = inr p.

Definition registry (st : State) : list Process :=
  companion_processes (self st).

(** What [spawn_companion] returns once the process exists (lines 73-78). *)
Definition handshake (p : Process) : Outcome json :=
  match stdout p with
  | Some out =>
    match _read_stream out with
    | Ok port => if truthy port then Ok port else Raise HandshakeFailure
    | Raise e => Raise e
    end
  | None => Raise (CompanionSpawnerException "process has no stdout")
  end.

(** The spawner after [companion_processes.append(p)]. *)
Definition with_process (st : State) (p : Process) : CompanionSpawner :=
  mkSpawner (companion_path (self st)) (companion_processes (self st) ++ [p]).

(** *** Sample inputs *)

Definition nl : string := String "010"%char EmptyString.

(** The line [{"grpc_port": <digits>}]. *)
Definition port_line (digits : string) : bytes :=
  B ("{" ++ dq ++ "grpc_port" ++ dq ++ ": " ++ digits ++ "}" ++ nl).

(** A fake executable: every call succeeds and the process has pid 4242 and
    the given standard output. *)
Definition fake_os (out : option (list bytes)) : OS :=
  mkOS (fun _ => None) (fun _ => None) (fun _ => inr (mkProcess 4242 out)).

Definition fresh (path : string) : State :=
  mkState (mkSpawner path []) [].

Definition idb_companion : string := "/usr/local/bin/idb_companion".
Definition idb_logs : string := "/tmp/idb_logs".

(** The process [fake_os out] creates. *)
Definition fake_process (out : option (list bytes)) : Process :=
  mkProcess 4242 out.

(** Standard outputs: the line [no] and then the port; the JSON string
    holding no and then the port; an empty object and then the port; port
    zero; an object without the field; two falsy values; nothing at all. *)
Definition stdout_no : list bytes :=
  [B ("no" ++ nl); port_line "10882"].
Definition stdout_quoted_no : list bytes :=
  [B (dq ++ "no" ++ dq ++ nl); port_line "10882"].
Definition stdout_empty_object : list bytes :=
  [B ("{}" ++ nl); port_line "10882"].
Definition stdout_port_zero : list bytes :=
  [port_line "0"].
Definition stdout_hostname : list bytes :=
  [B ("{" ++ dq ++ "hostname" ++ dq ++ ": " ++ dq ++ "mac" ++ dq ++ "}" ++ nl)].
Definition stdout_falsy : list bytes :=
  [B ("{}" ++ nl); B ("null" ++ nl)].
Definition stdout_closed : list bytes := [].

(** [spawn_companion] against the fake executable, for target UDID1. *)
Definition spawn_fake (path : string) (out : option (list bytes))
  : Outcome json * State :=
  spawn_companion idb_logs (fake_os out) "UDID1" (fresh path).

End SpawnerSpec.

Module InstallSpec.

Import Install.
Local Open Scope string_scope.
Local Open Scope list_scope.

(** One session as the peer sees it: the stream is opened, the destination
    and one payload message are sent, the stream is ended and one response is
    read. *)
Definition session (destination : Destination) (payload : Payload)
  : list StreamEvent :=
  [OpenStream;
   SendMessage (Request_destination destination);
   SendMessage (Request_payload payload);
   StreamEnd;
   RecvMessage].

Definition artifact_of (r : InstallResponse) : InstalledArtifact :=
  mkArtifact (response_name r) (response_uuid r).

(** The specification's fixed-block sequence (section 4.2): the stream cut
    into blocks of 16384 bytes, the last one shorter, until it is exhausted.
    [n] bounds the number of blocks. *)
Fixpoint spec_blocks_upto (n : nat) (f : bytes) : list bytes :=
  match n with
  | O => []
  | S n' =>
    match f with
    | [] => []
    | _ => firstn CHUNK_SIZE f :: spec_blocks_upto n' (skipn CHUNK_SIZE f)
    end
  end.

Definition spec_blocks (f : bytes) : list bytes :=
  spec_blocks_upto (length f) f.

(** The answer of the peer, as an artifact; [missing] is raised when the
    peer closed without a response. *)
Definition respond (client : CompanionClient) (missing : exn)
           (sent : list InstallRequest) : Outcome InstalledArtifact :=
  match peer client sent with
  | Some r => Ok (artifact_of r)
  | None => Raise missing
  end.

(** The specification's install algorithm (section 4.3), by its words: a
    string is a URL when it has a scheme and a local path otherwise, which
    must resolve; the session is the destination message, then the payload
    message or the block sequence of the stream, then stream-end and one
    response, whose name and uuid make the artifact. *)
Definition spec_install (env : Env) (client : CompanionClient)
           (bundle : Bundle) (destinationKind : Destination) (w : World)
  : Outcome InstalledArtifact * World :=
  match bundle with
  | BundleStr s =>
    match (if (url_scheme env s =? EmptyString)%string
           then option_map Payload_file_path (resolve env s)
           else Some (Payload_url s)) with
    | None => (Raise (FileNotFoundError s), w)
    | Some payload =>
      (respond client AttributeError
               [Request_destination destinationKind; Request_payload payload],
       mkWorld (downstream w ++ session destinationKind payload)
               (inbound w) (upstream w))
    end
  | BundleIO io =>
    let sent := Request_destination destinationKind
                :: map data_message (spec_blocks io) in
    (respond client AssertionError sent,
     mkWorld (downstream w
              ++ OpenStream :: map SendMessage sent ++ [StreamEnd; RecvMessage])
             (inbound w) (upstream w))
  end.

(** The last character of a string, if it has one. *)
Fixpoint last_char (s : string) : option ascii :=
  match s with
  | EmptyString => None
  | String c EmptyString => Some c
  | String _ r => last_char r
  end.

(** A file name: no slash in it. *)
Fixpoint no_slash (s : string) : bool :=
  match s with
  | EmptyString => true
  | String c r => negb (Ascii.eqb c "/"%char) && no_slash r
  end.

(** *** Sample inputs *)

Definition scheme_char (c : ascii) : bool :=
  let n := nat_of_ascii c in
  ((65 <=? n) && (n <=? 90) || (97 <=? n) && (n <=? 122)
   || (48 <=? n) && (n <=? 57) || (n =? 43) || (n =? 45) || (n =? 46))%nat.

(** A scheme in the sense of RFC 3986: what precedes the first colon, when
    it is not empty and made of letters, digits, plus, minus and dot. *)
Fixpoint scheme_from (s acc : string) : string :=
  match s with
  | EmptyString => EmptyString
  | String c r =>
    if Ascii.eqb c ":"%char then acc
    else if scheme_char c then scheme_from r (acc ++ String c EmptyString)
    else EmptyString
  end.

Definition sample_env : Env :=
  mkEnv (fun s => scheme_from s EmptyString)
        (fun s => if s =? "app.ipa" then Some "/home/user/app.ipa"
                  else if s =? "/tmp/x.dylib" then Some s
                  else None)
        (fun s => if s =? "/home/user/app.ipa" then Some (B "0123456789")
                  else None)
        (fun _ => ([B "tar-1"; B "tar-2"], None))
        (fun _ => ([B "gzip-1"; B "gzip-2"], None))
        (fun s => Ok [s]).

(** A peer that answers every session with name App and uuid abc. *)
Definition sample_peer (local : bool) : CompanionClient :=
  mkClient local (fun _ => Some (mkResponse "App" "abc")).

(** A peer that closes every session without a response. *)
Definition silent_peer (local : bool) : CompanionClient :=
  mkClient local (fun _ => None).

Definition fresh_world (inbound : list InstallRequest) : World :=
  mkWorld [] inbound [].

(** An inbound session whose payload message has no variant populated. *)
Definition empty_payload_session : list InstallRequest :=
  [Request_destination APP; Request_payload Payload_unset].

(** The relay on that session. *)
Definition relay_empty_payload (local : bool) : Outcome unit * World :=
  daemon sample_env (sample_peer local) (fresh_world empty_payload_session).

Definition ten_bytes : bytes := B "0123456789".
Definition sample_url : string := "https://example.com/app.ipa".

End InstallSpec.

(* ===================================================================== *)
(** * Shutdown of the spawned companions *)
(* ===================================================================== *)

Module Shutdown.

Import Spawner.
Local Open Scope list_scope.
Local Open Scope py_scope.

(** The calls that signal a process, in the order they are made. *)
Inductive Signal : Type :=
| Kill (pid : Z)          (* os.kill(pid, signal.SIGTERM) *)
| Terminate (pid : Z).    (* process.terminate() *)

(** How a call is answered, given the calls made before it: it returns, or
    it raises (for a process that is gone, say). *)
Record Signalling : Type := mkSignalling {
  os_kill : list Signal -> Z -> option exn;
  process_terminate : list Signal -> Z -> option exn
}.

(** One call: it is recorded, and its answer decides whether the caller goes
    on. *)
Definition signal (answer : list Signal -> option exn) (s : Signal)
  : M (list Signal) unit :=
  fun sent =>
    (match answer sent with
     | None => Ok tt
     | Some e => Raise e
     end, sent ++ [s]).

(** The loop of lines 47-48. *)
Fixpoint kill_each (sys : Signalling) (processes : list Process)
  : M (list Signal) unit :=
  match processes with
  | [] => ret tt
  | p :: rest =>
    signal (fun sent => os_kill sys sent (pid p)) (Kill (pid p)) ;;
    kill_each sys rest
  end.

(** [kill_spawned_companion] (lines 46-48) *)
Definition kill_spawned_companion (sys : Signalling) (self : CompanionSpawner)
  : M (list Signal) unit :=
  kill_each sys (companion_processes self).

(** The loop of lines 82-84. *)
Fixpoint terminate_each (sys : Signalling) (processes : list Process)
  : M (list Signal) unit :=
  match processes with
  | [] => ret tt
  | process :: rest =>
    signal (fun sent => process_terminate sys sent (pid process))
           (Terminate (pid process)) ;;
    terminate_each sys rest
  end.

(** [close] (lines 80-84) *)
Definition close (sys : Signalling) (self : CompanionSpawner)
  : M (list Signal) unit :=
  terminate_each sys (companion_processes self).

(** The calls that signal each of [processes] once, in order. *)
Definition kills (processes : list Process) : list Signal :=
  map (fun p => Kill (pid p)) processes.

Definition terminations (processes : list Process) : list Signal :=
  map (fun p => Terminate (pid p)) processes.

(** *** Sample inputs *)

(** Every call returns. *)
Definition obliging : Signalling :=
  mkSignalling (fun _ _ => None) (fun _ _ => None).

(** The process with pid 2 is gone: signalling it raises. *)
Definition second_is_gone : Signalling :=
  mkSignalling
    (fun _ pid => if (pid =? 2)%Z then Some (OSError "No such process")
                  else None)
    (fun _ pid => if (pid =? 2)%Z then Some (OSError "No such process")
                  else None).

Definition three_processes : CompanionSpawner :=
  mkSpawner "/usr/local/bin/idb_companion"
            [mkProcess 1 None; mkProcess 2 None; mkProcess 3 None].

(** Operating systems for [spawn_companion]: one on which the log directory
    cannot be made, and one that gives the created process a chosen pid. *)
Definition read_only_os : OS :=
  mkOS (fun _ => Some (OSError "Read-only file system"))
       (fun _ => None)
       (fun _ => inl (OSError "unreachable")).

Definition os_with_pid (pid : Z) (out : option (list bytes)) : OS :=
  mkOS (fun _ => None) (fun _ => None) (fun _ => inr (mkProcess pid out)).

End Shutdown.

(* ===================================================================== *)
(** * The scanner's budget *)
(* ===================================================================== *)

Module JsonFacts.
Import Json.

Lemma skip_ws_length s : length (skip_ws s) <= length s.
Proof.
  induction s as [|c r IH]; simpl; [lia|].
  destruct (is_ws c); simpl; lia.
Qed.

Lemma push_length c o k r n :
  push c o = Some (k, r) ->
  (forall k' r', o = Some (k', r') -> length r' < n) ->
  length r < n.
Proof.
  destruct o as [[k' r']|]; simpl; [|discriminate].
  intros [= <- <-] H. eapply H; eauto.
Qed.

Lemma scanstring_length : forall n s k r,
  length s <= n -> scanstring s = Some (k, r) -> length r < length s.
Proof.
  induction n as [|n IH]; intros s k r Hn H.
  - destruct s; simpl in *; [discriminate | lia].
  - assert (IH' : forall t k' r', length t <= n ->
              scanstring t = Some (k', r') -> length r' < length t)
      by (intros; eapply IH; eauto).
    clear IH.
    destruct s as [|c s]; [discriminate|].
    cbn [scanstring] in H.
    repeat match type of H with
           | Some _ = Some _ => injection H as <- <-; simpl; lia
           | None = Some _ => discriminate
           | push _ (scanstring ?t) = Some _ =>
             eapply push_length in H;
             [ exact H
             | intros k' r' Hs; apply IH' in Hs; simpl in *; lia ]
           | context [match ?l with [] => _ | _ :: _ => _ end] =>
             destruct l; simpl in Hn
           | context [match ?o with Some _ => _ | None => _ end] =>
             destruct o
           | context [if ?b then _ else _] => destruct b
           end.
Qed.

Lemma span_digits_length s : length (snd (span_digits s)) <= length s.
Proof.
  induction s as [|c r IH]; simpl; [lia|].
  destruct (is_digit c); simpl; [|lia].
  destruct (span_digits r); simpl in *; lia.
Qed.

Lemma scan_frac_length s : length (snd (scan_frac s)) <= length s.
Proof.
  destruct s as [|c r]; simpl; [lia|].
  destruct (c =? 46)%N; simpl; [|lia].
  pose proof (span_digits_length r) as H.
  destruct (span_digits r) as [[|d ds] rest]; simpl in *; lia.
Qed.

Lemma scan_exp_length s : length (snd (scan_exp s)) <= length s.
Proof.
  destruct s as [|c r]; simpl; [lia|].
  destruct ((c =? 101)%N || (c =? 69)%N); simpl; [|lia].
  destruct r as [|sg r'].
  - simpl. lia.
  - destruct (sg =? 45)%N; [|destruct (sg =? 43)%N].
    + pose proof (span_digits_length r') as H.
      destruct (span_digits r') as [[|d ds] rest]; simpl in *; lia.
    + pose proof (span_digits_length r') as H.
      destruct (span_digits r') as [[|d ds] rest]; simpl in *; lia.
    + pose proof (span_digits_length (sg :: r')) as H.
      destruct (span_digits (sg :: r')) as [[|d ds] rest]; simpl in *; lia.
Qed.

Lemma finish_number_length neg ds s :
  length (snd (finish_number neg ds s)) <= length s.
Proof.
  unfold finish_number.
  pose proof (scan_frac_length s) as Hf.
  destruct (scan_frac s) as [fd s1]; simpl in Hf.
  pose proof (scan_exp_length s1) as He.
  destruct (scan_exp s1) as [ex s2]; simpl in He.
  destruct fd; destruct ex; simpl; lia.
Qed.

Lemma match_number_length s v r :
  match_number s = Some (v, r) -> length r < length s.
Proof.
  unfold match_number.
  assert (body : forall neg t, length t <= length s ->
    match t with
    | d :: r0 =>
      if (d =? 48)%N then Some (finish_number neg [d] r0)
      else if is_digit d
           then let (ds, rest) := span_digits r0 in
                Some (finish_number neg (d :: ds) rest)
           else None
    | [] => None
    end = Some (v, r) -> length r < length s).
  { intros neg [|d r0] Ht; [discriminate|]. simpl in Ht.
    destruct (d =? 48)%N.
    - intros [= E]. pose proof (finish_number_length neg [d] r0) as H.
      rewrite E in H. simpl in H. lia.
    - destruct (is_digit d); [|discriminate].
      pose proof (span_digits_length r0) as Hs.
      destruct (span_digits r0) as [ds rest]; simpl in Hs.
      intros [= E]. pose proof (finish_number_length neg (d :: ds) rest) as H.
      rewrite E in H. simpl in H. lia. }
  destruct s as [|c r0]; [discriminate|].
  destruct (c =? 45)%N.
  - apply (body true r0). simpl. lia.
  - apply (body false (c :: r0)). lia.
Qed.

Lemma strip_prefix_length p s r :
  strip_prefix p s = Some r -> length r + length p = length s.
Proof.
  revert s; induction p as [|a p IH]; intros [|b s]; simpl;
    try discriminate; try (intros [= <-]; simpl; lia).
  destruct (a =? b)%N; [|discriminate].
  intros H. apply IH in H. lia.
Qed.

Lemma match_constant_length s v r :
  match_constant s = Some (v, r) -> length r < length s.
Proof.
  unfold match_constant.
  repeat match goal with
         | |- context [strip_prefix ?p s] =>
           let E := fresh "E" in
           destruct (strip_prefix p s) eqn:E;
             [ apply strip_prefix_length in E; intros [= <- <-];
               simpl in E; lia | ]
         end.
  discriminate.
Qed.

(** The budget [loads] gives the scanner is never used up. *)
Lemma scan_budget : forall fuel,
  (forall s, 2 * length s < fuel ->
     scan_once fuel s <> PFuel /\
     forall v r, scan_once fuel s = POk v r -> length r < length s) /\
  (forall s acc, 2 * length s + 1 < fuel ->
     parse_members fuel s acc <> PFuel /\
     forall v r, parse_members fuel s acc = POk v r -> length r < length s) /\
  (forall s acc, 2 * length s + 1 < fuel ->
     parse_elements fuel s acc <> PFuel /\
     forall v r, parse_elements fuel s acc = POk v r -> length r < length s).
Proof.
  induction fuel as [|f [IHs [IHm IHe]]].
  - repeat split; intros; lia.
  - split; [|split].
    + (* scan_once *)
      intros s Hs. cbn [scan_once].
      destruct s as [|c r]; [split; [discriminate | intros; discriminate]|].
      simpl in Hs.
      destruct (c =? 34)%N.
      { destruct (scanstring r) as [[k r']|] eqn:E;
          (split; [discriminate|]); [|intros; discriminate].
        intros v r0 [= <- <-].
        apply scanstring_length with (n := length r) in E; simpl; lia. }
      destruct (c =? 123)%N.
      { pose proof (skip_ws_length r) as Hw.
        destruct (skip_ws r) as [|c' r'];
          [split; [discriminate | intros; discriminate]|].
        simpl in Hw.
        destruct (c' =? 125)%N.
        - split; [discriminate|]. intros v r0 [= <- <-]. simpl. lia.
        - destruct (IHm (c' :: r') []) as [H1 H2]; [simpl; lia|].
          split; [exact H1|]. intros v r0 E. apply H2 in E. simpl in *. lia. }
      destruct (c =? 91)%N.
      { pose proof (skip_ws_length r) as Hw.
        destruct (skip_ws r) as [|c' r'];
          [split; [discriminate | intros; discriminate]|].
        simpl in Hw.
        destruct (c' =? 93)%N.
        - split; [discriminate|]. intros v r0 [= <- <-]. simpl. lia.
        - destruct (IHe (c' :: r') []) as [H1 H2]; [simpl; lia|].
          split; [exact H1|]. intros v r0 E. apply H2 in E. simpl in *. lia. }
      destruct (match_constant (c :: r)) as [[v r']|] eqn:Ec.
      { split; [discriminate|]. intros v0 r0 [= <- <-].
        apply match_constant_length in Ec. exact Ec. }
      destruct (match_number (c :: r)) as [[v r']|] eqn:En.
      { split; [discriminate|]. intros v0 r0 [= <- <-].
        apply match_number_length in En. exact En. }
      split; [discriminate | intros; discriminate].
    + (* parse_members *)
      intros s acc Hs. cbn [parse_members].
      destruct s as [|c r]; [split; [discriminate | intros; discriminate]|].
      simpl in Hs.
      destruct (c =? 34)%N; [|split; [discriminate | intros; discriminate]].
      destruct (scanstring r) as [[k r1]|] eqn:E;
        [|split; [discriminate | intros; discriminate]].
      apply scanstring_length with (n := length r) in E; [|lia].
      pose proof (skip_ws_length r1) as Hw1.
      destruct (skip_ws r1) as [|c2 r2];
        [split; [discriminate | intros; discriminate]|].
      simpl in Hw1.
      destruct (c2 =? 58)%N; [|split; [discriminate | intros; discriminate]].
      pose proof (skip_ws_length r2) as Hw2.
      destruct (IHs (skip_ws r2)) as [H1 H2]; [lia|].
      destruct (scan_once f (skip_ws r2)) as [v r3| |] eqn:Ev;
        [|split; [discriminate | intros; discriminate] | congruence].
      specialize (H2 _ _ eq_refl).
      pose proof (skip_ws_length r3) as Hw3.
      destruct (skip_ws r3) as [|c3 r4];
        [split; [discriminate | intros; discriminate]|].
      simpl in Hw3.
      destruct (c3 =? 125)%N.
      { split; [discriminate|]. intros v0 r0 [= <- <-]. simpl. lia. }
      destruct (c3 =? 44)%N; [|split; [discriminate | intros; discriminate]].
      pose proof (skip_ws_length r4) as Hw4.
      destruct (IHm (skip_ws r4) (acc ++ [(k, v)])) as [G1 G2]; [lia|].
      split; [exact G1|]. intros v0 r0 E0. apply G2 in E0. simpl. lia.
    + (* parse_elements *)
      intros s acc Hs. cbn [parse_elements].
      destruct (IHs s) as [H1 H2]; [lia|].
      destruct (scan_once f s) as [v r1| |] eqn:Ev;
        [|split; [discriminate | intros; discriminate] | congruence].
      specialize (H2 _ _ eq_refl).
      pose proof (skip_ws_length r1) as Hw1.
      destruct (skip_ws r1) as [|c r2];
        [split; [discriminate | intros; discriminate]|].
      simpl in Hw1.
      destruct (c =? 93)%N.
      { split; [discriminate|]. intros v0 r0 [= <- <-]. lia. }
      destruct (c =? 44)%N; [|split; [discriminate | intros; discriminate]].
      pose proof (skip_ws_length r2) as Hw2.
      destruct (IHe (skip_ws r2) (acc ++ [v])) as [G1 G2]; [lia|].
      split; [exact G1|]. intros v0 r0 E0. apply G2 in E0. lia.
Qed.

Lemma loads_budget s : scan_once (S (2 * length s)) (skip_ws s) <> PFuel.
Proof.
  apply scan_budget. pose proof (skip_ws_length s). lia.
Qed.
End JsonFacts.

(* ===================================================================== *)
(** * Properties of the companion spawner *)
(* ===================================================================== *)

Module SpawnerFacts.

Import Json Spawner SpawnerSpec.
Local Open Scope string_scope.
Local Open Scope list_scope.

(** ** Reading the stream *)

(** The recursion of [_read_stream] is the loop over [readline]. *)
Lemma read_stream_readline stream :
  _read_stream stream
  = let (line, rest) := readline stream in
    if bytes_truthy line then
      match bytes_decode line with
      | None => Raise UnicodeDecodeError
      | Some text =>
        match loads text with
        | None => Raise JSONDecodeError
        | Some update =>
          if truthy update then getitem update "grpc_port"
          else _read_stream rest
        end
      end
    else Ok (JInt 0).
Proof. destruct stream; reflexivity. Qed.

Lemma falsy_line_inv line :
  falsy_line line = true ->
  bytes_truthy line = true /\
  exists text update,
    bytes_decode line = Some text /\ loads text = Some update
    /\ truthy update = false.
Proof.
  unfold falsy_line, update_of. intros H.
  apply andb_true_iff in H as [Hl H]. split; [exact Hl|].
  destruct (bytes_decode line) as [text|] eqn:Hd; [|discriminate].
  destruct (loads text) as [update|] eqn:Hj; [|discriminate].
  exists text, update.
  split; [reflexivity | split; [exact Hj |]].
  apply negb_true_iff. exact H.
Qed.

Lemma read_stream_skip line rest :
  falsy_line line = true ->
  _read_stream (line :: rest) = _read_stream rest.
Proof.
  intros H. apply falsy_line_inv in H as (Hl & text & update & Hd & Hj & Ht).
  cbn [_read_stream]. now rewrite Hl, Hd, Hj, Ht.
Qed.

Lemma read_stream_skip_all skipped rest :
  forallb falsy_line skipped = true ->
  _read_stream (skipped ++ rest) = _read_stream rest.
Proof.
  induction skipped as [|l ls IH]; intros H; [reflexivity|].
  cbn [forallb] in H. apply andb_true_iff in H as [Hl Hls].
  rewrite <- app_comm_cons, read_stream_skip by exact Hl. auto.
Qed.

Lemma read_stream_all_falsy out :
  forallb falsy_line out = true -> _read_stream out = Ok (JInt 0).
Proof.
  intros H. rewrite <- (app_nil_r out).
  now rewrite read_stream_skip_all.
Qed.

Lemma dict_get_nonempty k members v :
  dict_get k members = Some v -> members <> [].
Proof. destruct members; [discriminate | discriminate]. Qed.

Lemma announced_inv line port :
  announced line = Some port ->
  exists text members,
    bytes_decode line = Some text /\ loads text = Some (JObj members)
    /\ dict_get (U "grpc_port") members = Some port.
Proof.
  unfold announced, update_of.
  destruct (bytes_decode line) as [text|] eqn:Hd; [|discriminate].
  destruct (loads text) as [[| | | | | | members]|] eqn:Hj; try discriminate.
  intros H. exists text, members. auto.
Qed.

Lemma announced_nonempty line port :
  announced line = Some port -> bytes_truthy line = true.
Proof.
  destruct line; [|reflexivity].
  vm_compute. discriminate.
Qed.

Lemma read_stream_announce line rest port :
  announced line = Some port ->
  _read_stream (line :: rest) = Ok port.
Proof.
  intros H. pose proof (@announced_nonempty _ _ H) as Hl.
  apply announced_inv in H as (text & members & Hd & Hj & Hg).
  cbn [_read_stream]. rewrite Hl, Hd, Hj.
  destruct members as [|m ms]; [discriminate|].
  cbn [truthy getitem]. now rewrite Hg.
Qed.

(** Without a line that has the field, the loop ends with the initial port
    or with the exception of the first line it cannot handle. *)
Lemma read_stream_no_port out :
  forallb (fun l => negb (has_grpc_port l)) out = true ->
  _read_stream out = Ok (JInt 0)
  \/ _read_stream out = Raise UnicodeDecodeError
  \/ _read_stream out = Raise JSONDecodeError
  \/ _read_stream out = Raise TypeError
  \/ _read_stream out = Raise (KeyError "grpc_port").
Proof.
  induction out as [|line rest IH]; intros H; [now left|].
  cbn [forallb] in H. apply andb_true_iff in H as [Hl Hrest].
  specialize (IH Hrest).
  apply negb_true_iff in Hl. unfold has_grpc_port, announced, update_of in Hl.
  cbn [_read_stream].
  destruct (bytes_truthy line); [|now left].
  destruct (bytes_decode line) as [text|]; [|now right; left].
  destruct (loads text) as [update|]; [|now right; right; left].
  destruct (truthy update); [|exact IH].
  destruct update; cbn [getitem]; try (now right; right; right; left).
  destruct (dict_get (U "grpc_port") members); [discriminate|].
  now right; right; right; right.
Qed.


(** ** The five ways through [spawn_companion] *)

(** Unfolds the monadic plumbing of [spawn_companion], and nothing of the
    operating system's answers. *)
Ltac run_spawn :=
  cbv beta iota zeta
      delta [spawn_companion _log_file_path with_open_append
             create_subprocess_exec append_process lift_outcome lift_os
             emit bind get modify ret raise];
  cbn [self trace companion_path companion_processes fst snd].

Section Spawn.

Variable logs : string.
Variable os : OS.
Variable target_udid : string.
Variable st : State.

Let cmd := command (companion_path (self st)) target_udid.
Let path := log_file logs target_udid.

Lemma spawn_unconfigured :
  companion_path (self st) = EmptyString ->
  spawn_companion logs os target_udid st
  = (Raise (ConfigurationError target_udid), st).
Proof.
  intros H. run_spawn. rewrite H. reflexivity.
Qed.

Lemma spawn_makedirs_fails e :
  companion_path (self st) <> EmptyString ->
  os_makedirs os logs = Some e ->
  spawn_companion logs os target_udid st
  = (Raise e, mkState (self st) (trace st ++ [Makedirs logs])).
Proof.
  intros Hp Hm. apply String.eqb_neq in Hp.
  run_spawn. rewrite Hp. run_spawn. rewrite Hm. reflexivity.
Qed.

Lemma spawn_open_fails e :
  companion_path (self st) <> EmptyString ->
  os_makedirs os logs = None ->
  os_open_append os path = Some e ->
  spawn_companion logs os target_udid st
  = (Raise e, mkState (self st)
                      (trace st ++ [Makedirs logs; OpenAppend path])).
Proof.
  intros Hp Hm Ho. apply String.eqb_neq in Hp.
  unfold path, log_file in *.
  run_spawn. rewrite Hp. run_spawn. rewrite Hm. run_spawn. rewrite Ho.
  now rewrite <- app_assoc.
Qed.

Lemma spawn_exec_fails e :
  companion_path (self st) <> EmptyString ->
  os_makedirs os logs = None ->
  os_open_append os path = None ->
  os_exec os cmd = inl e ->
  spawn_companion logs os target_udid st
  = (Raise e, mkState (self st)
                      (trace st ++ [Makedirs logs; OpenAppend path;
                                    Exec cmd; CloseFile path])).
Proof.
  intros Hp Hm Ho He. apply String.eqb_neq in Hp.
  unfold path, log_file, cmd, command in *.
  run_spawn. rewrite Hp. run_spawn. rewrite Hm. run_spawn. rewrite Ho.
  run_spawn. rewrite He. run_spawn.
  rewrite <- !app_assoc. reflexivity.
Qed.

Lemma spawn_launched p :
  launched logs os st target_udid p ->
  spawn_companion logs os target_udid st
  = (handshake p,
     mkState (with_process st p)
             (trace st ++ [Makedirs logs; OpenAppend path;
                           Exec cmd; CloseFile path])).
Proof.
  intros (Hp & Hm & Ho & He). apply String.eqb_neq in Hp.
  unfold path, log_file, cmd, command, handshake, with_process in *.
  run_spawn. rewrite Hp. run_spawn. rewrite Hm. run_spawn. rewrite Ho.
  run_spawn. rewrite He. run_spawn.
  destruct (stdout p) as [out|];
    [destruct (_read_stream out) as [port|e];
     [destruct (truthy port)|]|];
    run_spawn; cbn [negb]; run_spawn; rewrite <- !app_assoc; reflexivity.
Qed.

(** Every call goes one of the five ways. *)
Lemma spawn_cases :
  (exists p, launched logs os st target_udid p)
  \/ ((forall p, ~ launched logs os st target_udid p)
      /\ exists e tr, spawn_companion logs os target_udid st
                      = (Raise e, mkState (self st) tr)).
Proof.
  destruct (string_dec (companion_path (self st)) EmptyString) as [Hp|Hp].
  { right. split.
    - intros p (H & _). contradiction.
    - rewrite spawn_unconfigured by exact Hp. destruct st. eauto. }
  destruct (os_makedirs os logs) as [e|] eqn:Hm.
  { right. split.
    - intros p (_ & H & _). congruence.
    - erewrite spawn_makedirs_fails by eauto. eauto. }
  destruct (os_open_append os path) as [e|] eqn:Ho.
  { right. split.
    - intros p (_ & _ & H & _). unfold path in Ho. congruence.
    - erewrite spawn_open_fails by eauto. eauto. }
  destruct (os_exec os cmd) as [e|p] eqn:He.
  { right. split.
    - intros p (_ & _ & _ & H). unfold cmd in He. congruence.
    - erewrite spawn_exec_fails by eauto. eauto. }
  left. exists p. repeat split; assumption.
Qed.

End Spawn.

Lemma spawn_result_launched logs os target_udid st p :
  launched logs os st target_udid p ->
  fst (spawn_companion logs os target_udid st) = handshake p.
Proof. intros H. now rewrite (spawn_launched _ _ _ _ _ H). Qed.

Lemma handshake_announce p skipped line rest port :
  stdout p = Some (skipped ++ line :: rest) ->
  forallb falsy_line skipped = true ->
  announced line = Some port ->
  handshake p = if truthy port then Ok port else Raise HandshakeFailure.
Proof.
  intros Hout Hs Ha. unfold handshake. rewrite Hout.
  rewrite (read_stream_skip_all _ _ Hs), (read_stream_announce _ _ _ Ha).
  reflexivity.
Qed.

Lemma handshake_undecodable p skipped line rest :
  stdout p = Some (skipped ++ line :: rest) ->
  forallb falsy_line skipped = true ->
  bytes_truthy line = true ->
  update_of line = None ->
  handshake p = Raise UnicodeDecodeError
  \/ handshake p = Raise JSONDecodeError.
Proof.
  intros Hout Hs Hl Hu. unfold handshake. rewrite Hout.
  rewrite (read_stream_skip_all _ _ Hs). cbn [_read_stream]. rewrite Hl.
  unfold update_of in Hu.
  destruct (bytes_decode line) as [text|]; [|now left].
  rewrite Hu. now right.
Qed.

Lemma handshake_ok_truthy p port :
  handshake p = Ok port -> truthy port = true.
Proof.
  unfold handshake.
  destruct (stdout p) as [out|]; [|discriminate].
  destruct (_read_stream out) as [v|e]; [|discriminate].
  destruct (truthy v) eqn:Hv; [|discriminate].
  now intros [= <-].
Qed.

(** ** The claims about [spawn_companion] *)

(** C2, in the form that holds of the code. During the handshake a line that
    decodes to a falsy JSON value (null, false, 0, 0.0, an empty string, [[]]
    or [{}]) is ignored and reading continues: after any number of such lines,
    a line that is a JSON object announcing a truthy [grpc_port] makes
    [spawn_companion] return that port. A line that cannot be decoded is not
    ignored: [spawn_companion] fails with the decoding error. *)
Theorem C2_falsy_lines_are_skipped
        logs os target_udid st p skipped line rest :
  launched logs os st target_udid p ->
  stdout p = Some (skipped ++ line :: rest) ->
  forallb falsy_line skipped = true ->
  (forall port, announced line = Some port -> truthy port = true ->
     fst (spawn_companion logs os target_udid st) = Ok port)
  /\ (bytes_truthy line = true -> update_of line = None ->
      fst (spawn_companion logs os target_udid st) = Raise UnicodeDecodeError
      \/ fst (spawn_companion logs os target_udid st) = Raise JSONDecodeError).
Proof.
  intros Hl Hout Hs. rewrite (spawn_result_launched _ _ _ _ _ Hl). split.
  - intros port Ha Ht. rewrite (handshake_announce _ _ _ _ _ Hout Hs Ha).
    now rewrite Ht.
  - intros Hb Hu. exact (handshake_undecodable _ _ _ _ Hout Hs Hb Hu).
Qed.

(** C3, in the form that holds of the code. When [spawn_companion] fails
    before the companion process was created (no executable configured, the
    log directory or the log file could not be made, or the process could not
    be created), the registry is unchanged; when it fails after the process
    was created (the handshake failed, the process has no stdout, or a line of
    its output raised), the registry has gained that process as its last
    entry. *)
Theorem C3_registry_after_failed_spawn logs os target_udid st e :
  fst (spawn_companion logs os target_udid st) = Raise e ->
  (forall p, launched logs os st target_udid p ->
     registry (snd (spawn_companion logs os target_udid st))
     = registry st ++ [p]
     /\ handshake p = Raise e)
  /\ ((forall p, ~ launched logs os st target_udid p) ->
      registry (snd (spawn_companion logs os target_udid st)) = registry st).
Proof.
  intros Hfail. split.
  - intros p Hl. rewrite (spawn_launched _ _ _ _ _ Hl) in Hfail |- *.
    split; [reflexivity | exact Hfail].
  - intros Hn.
    destruct (spawn_cases logs os target_udid st)
      as [[p Hl] | [_ (e' & tr & E)]].
    + now apply Hn in Hl.
    + now rewrite E.
Qed.

(** C7, in the form that holds of the code.  When the standard output
    closes without a line that is a JSON object with a [grpc_port] field,
    [spawn_companion] returns no port.  It fails with the handshake failure
    when every line read before the close decodes to a falsy JSON value.
    Otherwise the first line that is not skipped decides the exception:
    [UnicodeDecodeError] when its bytes do not decode, [JSONDecodeError]
    when its text is not JSON, [KeyError] with the key [grpc_port] when it
    is a non-empty object, which then lacks the field, and [TypeError] when
    it is any other truthy value. *)
Theorem C7_no_port_line_fails logs os target_udid st p out :
  launched logs os st target_udid p ->
  stdout p = Some out ->
  forallb (fun l => negb (has_grpc_port l)) out = true ->
  is_ok (fst (spawn_companion logs os target_udid st)) = false
  /\ (forallb falsy_line out = true ->
      fst (spawn_companion logs os target_udid st) = Raise HandshakeFailure)
  /\ (forall skipped line rest,
        out = skipped ++ line :: rest ->
        forallb falsy_line skipped = true ->
        bytes_truthy line = true ->
        (bytes_decode line = None ->
         fst (spawn_companion logs os target_udid st)
         = Raise UnicodeDecodeError)
        /\ (forall text,
              bytes_decode line = Some text -> loads text = None ->
              fst (spawn_companion logs os target_udid st)
              = Raise JSONDecodeError)
        /\ (forall text members,
              bytes_decode line = Some text ->
              loads text = Some (JObj members) ->
              members <> [] ->
              dict_get (U "grpc_port") members = None
              /\ fst (spawn_companion logs os target_udid st)
                 = Raise (KeyError "grpc_port"))
        /\ (forall text update,
              bytes_decode line = Some text ->
              loads text = Some update ->
              truthy update = true ->
              (forall members, update <> JObj members) ->
              fst (spawn_companion logs os target_udid st)
              = Raise TypeError)).
Proof.
  intros Hl Hout Hn. rewrite (spawn_result_launched _ _ _ _ _ Hl).
  unfold handshake. rewrite Hout. split; [|split].
  - destruct (read_stream_no_port _ Hn) as [E|[E|[E|[E|E]]]];
      rewrite E; reflexivity.
  - intros Hf. now rewrite (read_stream_all_falsy _ Hf).
  - intros skipped line rest -> Hs Hb.
    rewrite (read_stream_skip_all _ _ Hs). cbn [_read_stream]. rewrite Hb.
    assert (Hline : has_grpc_port line = false).
    { rewrite forallb_app in Hn. apply andb_true_iff in Hn as [_ Hn].
      cbn [forallb] in Hn. apply andb_true_iff in Hn as [Hn _].
      now apply negb_true_iff in Hn. }
    unfold has_grpc_port, announced, update_of in Hline.
    split; [|split; [|split]].
    + intros Hd. now rewrite Hd.
    + intros text Hd Hj. now rewrite Hd, Hj.
    + intros text members Hd Hj Hne. rewrite Hd, Hj in Hline |- *.
      destruct members as [|m ms]; [now destruct Hne|].
      cbn [truthy getitem].
      destruct (dict_get (U "grpc_port") (m :: ms)); [discriminate|].
      split; reflexivity.
    + intros text update Hd Hj Ht Hno. rewrite Hd, Hj, Ht.
      destruct update; try reflexivity. now destruct (Hno members).
Qed.

(** C9.  When the companion announces port zero with the line
    [{"grpc_port": 0}], [spawn_companion] does not return 0: it fails with
    the handshake failure although a line with the field was received.
    Whenever [spawn_companion] returns a port, the port is truthy, so it is
    not zero. *)
Theorem C9_zero_port_is_a_handshake_failure
        logs os target_udid st p skipped line rest :
  (launched logs os st target_udid p ->
   stdout p = Some (skipped ++ line :: rest) ->
   forallb falsy_line skipped = true ->
   announced line = Some (JInt 0) ->
   fst (spawn_companion logs os target_udid st) = Raise HandshakeFailure)
  /\ (forall port,
        fst (spawn_companion logs os target_udid st) = Ok port ->
        truthy port = true /\ port <> JInt 0).
Proof.
  split.
  - intros Hl Hout Hs Ha. rewrite (spawn_result_launched _ _ _ _ _ Hl).
    now rewrite (handshake_announce _ _ _ _ _ Hout Hs Ha).
  - intros port Hok.
    assert (Ht : truthy port = true).
    { destruct (spawn_cases logs os target_udid st)
        as [[q Hl] | [_ (e' & tr & E)]].
      - rewrite (spawn_result_launched _ _ _ _ _ Hl) in Hok.
        exact (handshake_ok_truthy _ _ Hok).
      - rewrite E in Hok. discriminate. }
    split; [exact Ht|]. intros ->. discriminate.
Qed.

(** C10.  When the companion executable path is empty, [spawn_companion]
    raises the configuration exception before any side effect: the state
    after the call is the state before it, so no directory or log file was
    made, no process was created and the registry is unchanged. *)
Theorem C10_unset_path_has_no_side_effect logs os target_udid st :
  companion_path (self st) = EmptyString ->
  spawn_companion logs os target_udid st
  = (Raise (ConfigurationError target_udid), st)
  /\ trace (snd (spawn_companion logs os target_udid st)) = trace st
  /\ registry (snd (spawn_companion logs os target_udid st)) = registry st.
Proof.
  intros H. rewrite (spawn_unconfigured logs os target_udid st H).
  repeat split.
Qed.

(** ** The claims at sample inputs *)

Lemma fake_launched out :
  launched idb_logs (fake_os out) (fresh idb_companion) "UDID1"
           (fake_process out).
Proof.
  unfold launched. cbn.
  split; [discriminate | repeat split].
Defined.

Lemma C2_witness : fst (spawn_fake idb_companion (Some stdout_empty_object))
                   = Ok (JInt 10882).
Proof.
  refine (proj1 (C2_falsy_lines_are_skipped
                   idb_logs (fake_os (Some stdout_empty_object)) "UDID1"
                   (fresh idb_companion)
                   (fake_process (Some stdout_empty_object))
                   [B ("{}" ++ nl)] (port_line "10882") []
                   (fake_launched _) _ _) (JInt 10882) _ _).
  - reflexivity.
  - vm_compute. reflexivity.
  - vm_compute. reflexivity.
  - reflexivity.
Defined.

(** The line [no] is not skipped: the call raises, and so does the call
    whose first line is the JSON string holding no. *)
Lemma C2_counterexample :
  has_grpc_port (B ("no" ++ nl)) = false
  /\ fst (spawn_fake idb_companion (Some stdout_no)) = Raise JSONDecodeError
  /\ fst (spawn_fake idb_companion (Some stdout_no)) <> Ok (JInt 10882)
  /\ fst (spawn_fake idb_companion (Some stdout_quoted_no)) = Raise TypeError.
Proof.
  repeat split; try (vm_compute; reflexivity).
  vm_compute. discriminate.
Qed.

Lemma C3_witness :
  registry (snd (spawn_fake idb_companion (Some stdout_closed)))
  = registry (fresh idb_companion) ++ [fake_process (Some stdout_closed)]
  /\ handshake (fake_process (Some stdout_closed)) = Raise HandshakeFailure.
Proof.
  refine (proj1 (C3_registry_after_failed_spawn
                   idb_logs (fake_os (Some stdout_closed)) "UDID1"
                   (fresh idb_companion) HandshakeFailure _)
                (fake_process (Some stdout_closed)) (fake_launched _)).
  vm_compute. reflexivity.
Defined.

(** The handshake fails and the registry has an entry for the attempt. *)
Lemma C3_counterexample :
  fst (spawn_fake idb_companion (Some stdout_closed)) = Raise HandshakeFailure
  /\ registry (snd (spawn_fake idb_companion (Some stdout_closed)))
     = [fake_process (Some stdout_closed)]
  /\ registry (snd (spawn_fake idb_companion (Some stdout_closed)))
     <> registry (fresh idb_companion).
Proof.
  repeat split; try (vm_compute; reflexivity).
  vm_compute. discriminate.
Qed.

Lemma C7_witness :
  fst (spawn_fake idb_companion (Some stdout_falsy)) = Raise HandshakeFailure.
Proof.
  refine (proj1 (proj2 (C7_no_port_line_fails
                          idb_logs (fake_os (Some stdout_falsy)) "UDID1"
                          (fresh idb_companion)
                          (fake_process (Some stdout_falsy)) stdout_falsy
                          (fake_launched _) _ _)) _).
  - reflexivity.
  - vm_compute. reflexivity.
  - vm_compute. reflexivity.
Defined.

(** The output closes without the field, and the failure is a [KeyError]. *)
Lemma C7_counterexample :
  forallb (fun l => negb (has_grpc_port l)) stdout_hostname = true
  /\ fst (spawn_fake idb_companion (Some stdout_hostname))
     = Raise (KeyError "grpc_port")
  /\ fst (spawn_fake idb_companion (Some stdout_hostname))
     <> Raise HandshakeFailure.
Proof.
  repeat split; try (vm_compute; reflexivity).
  vm_compute. discriminate.
Qed.

Lemma C9_witness :
  fst (spawn_fake idb_companion (Some stdout_port_zero))
  = Raise HandshakeFailure.
Proof.
  refine (proj1 (C9_zero_port_is_a_handshake_failure
                   idb_logs (fake_os (Some stdout_port_zero)) "UDID1"
                   (fresh idb_companion)
                   (fake_process (Some stdout_port_zero))
                   [] (port_line "0") [])
                (fake_launched _) _ _ _).
  - reflexivity.
  - reflexivity.
  - vm_compute. reflexivity.
Defined.

(** Scenario B with an ignorable first line: the port is returned and the
    registry holds the one process. *)
Example scenario_B_registry :
  spawn_fake idb_companion (Some stdout_empty_object)
  = (Ok (JInt 10882),
     mkState (mkSpawner idb_companion
                        [fake_process (Some stdout_empty_object)])
             [Makedirs idb_logs; OpenAppend (log_file idb_logs "UDID1");
              Exec (command idb_companion "UDID1");
              CloseFile (log_file idb_logs "UDID1")]).
Proof. vm_compute. reflexivity. Qed.

Lemma C10_witness :
  spawn_fake EmptyString (Some stdout_empty_object)
  = (Raise (ConfigurationError "UDID1"), fresh EmptyString)
  /\ trace (snd (spawn_fake EmptyString (Some stdout_empty_object))) = []
  /\ registry (snd (spawn_fake EmptyString (Some stdout_empty_object))) = [].
Proof.
  refine (C10_unset_path_has_no_side_effect
            idb_logs (fake_os (Some stdout_empty_object)) "UDID1"
            (fresh EmptyString) _).
  reflexivity.
Defined.

End SpawnerFacts.

(* ===================================================================== *)
(** * Properties of the install module *)
(* ===================================================================== *)

Module InstallFacts.

Import Install InstallSpec.
Local Open Scope string_scope.
Local Open Scope list_scope.

(** ** Reading in blocks *)

Lemma CHUNK_SIZE_value : N.of_nat CHUNK_SIZE = 16384%N.
Proof. unfold CHUNK_SIZE. apply N2Nat.id. Qed.

Lemma CHUNK_SIZE_pos : 0 < CHUNK_SIZE.
Proof.
  pose proof CHUNK_SIZE_value as H.
  destruct CHUNK_SIZE; [discriminate | lia].
Qed.

(** The blocks of [f], as the loop produces them with [fuel] reads left. *)
Lemma iterate_blocks : forall fuel f,
  length f < fuel ->
  exists chunks,
    iterate _generate_io_chunks fuel (Reading f)
    = Some ((map data_message chunks, None), Finished)
    /\ concat chunks = f
    /\ Forall (fun c => 0 < length c <= CHUNK_SIZE) chunks
    /\ skipn (length chunks * CHUNK_SIZE) f = []
    /\ forall k, k < length chunks ->
         nth k chunks [] = firstn CHUNK_SIZE (skipn (k * CHUNK_SIZE) f).
Proof.
  pose proof CHUNK_SIZE_pos as Hpos.
  induction fuel as [|fuel IH]; intros f Hf; [lia|].
  cbn [iterate _generate_io_chunks]. unfold read_block, read.
  destruct (firstn CHUNK_SIZE f) as [|b chunk] eqn:Hfirst.
  - exists []. assert (f = []) as ->.
    { destruct f as [|x f']; [reflexivity|].
      destruct CHUNK_SIZE; [lia | discriminate]. }
    repeat split; [constructor | cbn; lia].
  - assert (Hlen : length (skipn CHUNK_SIZE f) < length f).
    { rewrite length_skipn. destruct f; [|cbn [length]; lia].
      rewrite firstn_nil in Hfirst. discriminate. }
    destruct (IH (skipn CHUNK_SIZE f))
      as (chunks & Hit & Hcat & Hall & Hend & Hnth); [lia|].
    exists ((b :: chunk) :: chunks). rewrite Hit. repeat split.
    + cbn [concat]. rewrite Hcat, <- Hfirst. apply firstn_skipn.
    + constructor; [|exact Hall]. split; [cbn; lia|].
      rewrite <- Hfirst. apply firstn_le_length.
    + rewrite <- Hend, skipn_skipn. f_equal. cbn [length Nat.mul]. lia.
    + intros [|k] Hk.
      * cbn [nth Nat.mul skipn]. symmetry. exact Hfirst.
      * cbn [nth]. rewrite Hnth by (cbn [length] in Hk; lia).
        rewrite skipn_skipn. f_equal. f_equal. cbn [Nat.mul]. lia.
Qed.

(** More resumptions than needed change nothing. *)
Lemma iterate_more_fuel {G} (next : G -> Step * G) : forall fuel g r,
  iterate next fuel g = Some r ->
  forall fuel', fuel <= fuel' -> iterate next fuel' g = Some r.
Proof.
  induction fuel as [|fuel IH]; intros g r H fuel' Hle; [discriminate|].
  destruct fuel' as [|fuel']; [lia|].
  cbn [iterate] in *.
  destruct (next g) as [[m| |e] g']; try exact H.
  destruct (iterate next fuel g') as [[[ms e] g'']|] eqn:E; [|discriminate].
  rewrite (IH _ _ E fuel') by lia. exact H.
Qed.

(** Once the file is open, [_generate_ipa_chunks] is [_generate_io_chunks]. *)
Lemma iterate_opened open_file : forall fuel g,
  iterate (_generate_ipa_chunks open_file) fuel (Opened g)
  = match iterate _generate_io_chunks fuel g with
    | Some (d, g') => Some (d, Opened g')
    | None => None
    end.
Proof.
  induction fuel as [|fuel IH]; intros g; [reflexivity|].
  cbn [iterate _generate_ipa_chunks].
  destruct (_generate_io_chunks g) as [[m| |e] g']; try reflexivity.
  rewrite IH.
  destruct (iterate _generate_io_chunks fuel g') as [[[ms e] g'']|];
    reflexivity.
Qed.

Lemma iterate_created open_file ipa_path f fuel :
  open_file ipa_path = Some f ->
  iterate (_generate_ipa_chunks open_file) fuel (Created ipa_path)
  = iterate (_generate_ipa_chunks open_file) fuel (Opened (Reading f)).
Proof.
  intros H. destruct fuel as [|fuel]; [reflexivity|].
  cbn [iterate _generate_ipa_chunks _generate_io_chunks]. rewrite H.
  reflexivity.
Qed.

(** C4.  A file of [length f] bytes read with the fixed-block strategy, by
    [_generate_ipa_chunks] from its path or by [_generate_io_chunks] from the
    open stream, gives only RawBytes messages; chunk number [k] is the block
    of [CHUNK_SIZE] = 16384 bytes at offset [k * CHUNK_SIZE], so the chunks
    come in file order and none is empty or longer than a block; their
    concatenation is the file, of the same length; the read after the last
    chunk is the first empty one, and once it has happened the generator is
    finished and yields nothing more. *)
Theorem C4_fixed_block_chunks open_file ipa_path f fuel :
  open_file ipa_path = Some f ->
  length f < fuel ->
  exists chunks,
    iterate _generate_io_chunks fuel (Reading f)
    = Some ((map data_message chunks, None), Finished)
    /\ iterate (_generate_ipa_chunks open_file) fuel (Created ipa_path)
       = Some ((map data_message chunks, None), Opened Finished)
    /\ drain_io f = (map data_message chunks, None)
    /\ concat chunks = f
    /\ length (concat chunks) = length f
    /\ Forall (fun c => 0 < length c <= CHUNK_SIZE) chunks
    /\ (forall k, k < length chunks ->
          nth k chunks [] = firstn CHUNK_SIZE (skipn (k * CHUNK_SIZE) f))
    /\ skipn (length chunks * CHUNK_SIZE) f = []
    /\ N.of_nat CHUNK_SIZE = 16384%N
    /\ _generate_io_chunks Finished = (StopAsyncIteration, Finished)
    /\ _generate_ipa_chunks open_file (Opened Finished)
       = (StopAsyncIteration, Opened Finished).
Proof.
  intros Hopen Hfuel.
  destruct (iterate_blocks (S (length f)) f (Nat.lt_succ_diag_r _))
    as (chunks & Hit & Hcat & Hall & Hend & Hnth).
  pose proof (iterate_more_fuel _ _ _ _ Hit fuel Hfuel) as Hit'.
  exists chunks.
  split; [exact Hit'|].
  split; [now rewrite (iterate_created _ _ _ _ Hopen), iterate_opened, Hit'|].
  split; [unfold drain_io; now rewrite Hit|].
  split; [exact Hcat|].
  split; [now rewrite Hcat|].
  split; [exact Hall|].
  split; [exact Hnth|].
  split; [exact Hend|].
  split; [exact CHUNK_SIZE_value|].
  split; reflexivity.
Qed.

(** ** The dylib generator *)

(** A generator that relays a chunk source yields one RawBytes message per
    chunk and ends as the source ends. *)
Lemma iterate_relaying (next : RelayGen string -> Step * RelayGen string) :
  (forall source, next (Relaying source) = relay_chunks source) ->
  forall chunks e fuel,
    length chunks < fuel ->
    iterate next fuel (Relaying (chunks, e))
    = Some ((map data_message chunks, e), Exhausted).
Proof.
  intros Hnext.
  induction chunks as [|c chunks IH]; intros e fuel Hf;
    (destruct fuel as [|fuel]; [cbn [length] in Hf; lia|]);
    cbn [iterate]; rewrite Hnext; cbn [relay_chunks].
  - destruct e; reflexivity.
  - rewrite IH by (cbn [length] in Hf; lia). reflexivity.
Qed.

Lemma drain_tar_spec env path :
  drain_tar env path
  = (map data_message (fst (generate_tar env [path])),
     snd (generate_tar env [path])).
Proof.
  unfold drain_tar, chunks_bound.
  assert (E : forall fuel,
             iterate (_generate_tar_chunks env) (S fuel) (NotStarted path)
             = iterate (_generate_tar_chunks env) (S fuel)
                       (Relaying (generate_tar env [path])))
    by reflexivity.
  rewrite E. destruct (generate_tar env [path]) as [chunks e]. cbn [fst snd].
  rewrite iterate_relaying by (reflexivity || lia). reflexivity.
Qed.

Lemma drain_xctest_spec env path :
  drain_xctest env path
  = match xctest_paths_to_tar env path with
    | Ok paths => (map data_message (fst (generate_tar env paths)),
                   snd (generate_tar env paths))
    | Raise e => ([], Some e)
    end.
Proof.
  unfold drain_xctest, chunks_bound.
  destruct (xctest_paths_to_tar env path) as [paths|e] eqn:Hx.
  - assert (E : forall fuel,
               iterate (_generate_xctest_chunks env) (S fuel) (NotStarted path)
               = iterate (_generate_xctest_chunks env) (S fuel)
                         (Relaying (generate_tar env paths))).
    { intros fuel. cbn [iterate _generate_xctest_chunks]. now rewrite Hx. }
    rewrite E. destruct (generate_tar env paths) as [chunks e]. cbn [fst snd].
    rewrite iterate_relaying by (reflexivity || lia). reflexivity.
  - cbn [iterate _generate_xctest_chunks]. now rewrite Hx.
Qed.

Lemma iterate_not_started env path fuel :
  iterate (_generate_dylib_chunks env) (S fuel) (NotStarted path)
  = match iterate (_generate_dylib_chunks env) fuel
                  (Relaying (generate_gzip env path)) with
    | Some ((ms, e), g) =>
      Some ((Request_name_hint (basename path) :: ms, e), g)
    | None => None
    end.
Proof. reflexivity. Qed.

Lemma basename_from_app : forall a b cur,
  basename_from (a ++ b)%string cur = basename_from b (basename_from a cur).
Proof.
  induction a as [|c a IH]; intros b cur; [reflexivity|].
  cbn [append basename_from]. destruct (Ascii.eqb c "/"); apply IH.
Qed.

Lemma basename_from_no_slash : forall file cur,
  no_slash file = true -> basename_from file cur = (cur ++ file)%string.
Proof.
  induction file as [|c file IH]; intros cur H.
  - cbn. clear H. induction cur as [|x cur IHc]; [reflexivity|].
    cbn. now rewrite <- IHc.
  - cbn [no_slash] in H. apply andb_true_iff in H as [Hc Hn].
    apply negb_true_iff in Hc. cbn [basename_from]. rewrite Hc.
    rewrite IH by exact Hn.
    clear. induction cur as [|x cur IHc]; [reflexivity|].
    cbn. now rewrite IHc.
Qed.

Lemma drain_dylib_spec env path :
  drain_dylib env path
  = (Request_name_hint (basename path)
       :: map data_message (fst (generate_gzip env path)),
     snd (generate_gzip env path)).
Proof.
  unfold drain_dylib, chunks_bound. rewrite iterate_not_started.
  destruct (generate_gzip env path) as [chunks e]. cbn [fst snd].
  rewrite iterate_relaying by (reflexivity || lia). reflexivity.
Qed.

(** C5.  A path encoded with the destination Dylib, that is by the generator
    [_generate_binary_chunks] returns for [DYLIB], gives first a NameHint
    message carrying the base name of the path, what follows its last
    slash; everything after it is a RawBytes message carrying a chunk of the
    gzip generator applied to the path, in order; so no RawBytes message
    comes before the NameHint.  The generator is [_generate_dylib_chunks],
    whose first resumption yields the NameHint before the gzip generator is
    asked for anything. *)
Theorem C5_dylib_name_hint_first env path :
  _generate_binary_chunks env path DYLIB
  = Ok (Request_name_hint (basename path)
          :: map data_message (fst (generate_gzip env path)),
        snd (generate_gzip env path))
  /\ (exists rest,
        _generate_binary_chunks env path DYLIB
        = Ok (Request_name_hint (basename path) :: rest,
              snd (generate_gzip env path))
        /\ Forall (fun m => exists chunk,
                     In chunk (fst (generate_gzip env path))
                     /\ m = Request_payload (Payload_data chunk)) rest)
  /\ _generate_dylib_chunks env (NotStarted path)
     = (Yield (Request_name_hint (basename path)),
        Relaying (generate_gzip env path))
  /\ drain_dylib env path
     = (Request_name_hint (basename path)
          :: map data_message (fst (generate_gzip env path)),
        snd (generate_gzip env path))
  /\ (forall dir file,
        no_slash file = true -> path = (dir ++ "/" ++ file)%string ->
        basename path = file)
  /\ (no_slash path = true -> basename path = path).
Proof.
  split; [|split; [|split; [|split; [|split]]]].
  - cbn [_generate_binary_chunks]. now rewrite drain_dylib_spec.
  - cbn [_generate_binary_chunks]. rewrite drain_dylib_spec.
    eexists. split; [reflexivity|].
    apply Forall_forall. intros m Hm.
    apply in_map_iff in Hm as (chunk & <- & Hin). now exists chunk.
  - reflexivity.
  - apply drain_dylib_spec.
  - intros dir file Hn ->. unfold basename.
    rewrite !basename_from_app. cbn [basename_from Ascii.eqb Bool.eqb].
    now rewrite basename_from_no_slash.
  - intros Hn. unfold basename. now rewrite basename_from_no_slash.
Qed.

(** ** Sessions *)

Ltac run_install :=
  cbv beta iota zeta
      delta [_install_to_destination daemon drain_to_stream recv_message
             inbound_recv_message inbound_send_message none_throws
             open_stream send_message stream_end log_event lift_outcome
             path_resolve_strict bind get modify ret raise];
  cbn [downstream inbound upstream fst snd].

Lemma current_session_opened evs tail :
  current_session (evs ++ OpenStream :: tail) = current_session tail.
Proof.
  unfold current_session. rewrite fold_left_app. reflexivity.
Qed.

(** What the peer has been sent when the response is read. *)
Lemma forwarded_session evs destination payload :
  forwarded (current_session (evs ++ session destination payload))
  = [Request_destination destination; Request_payload payload].
Proof.
  unfold session. rewrite current_session_opened. reflexivity.
Qed.

(** The session of a string bundle, once the payload is chosen. *)
Lemma install_string_session env client s destination w payload :
  (if (url_scheme env s =? EmptyString)%string
   then match resolve env s with
        | Some p => Some (Payload_file_path p)
        | None => None
        end
   else Some (Payload_url s)) = Some payload ->
  _install_to_destination env client (BundleStr s) destination w
  = (match peer client [Request_destination destination;
                        Request_payload payload] with
     | Some r => Ok (artifact_of r)
     | None => Raise AttributeError
     end,
     mkWorld (downstream w ++ session destination payload)
             (inbound w) (upstream w)).
Proof.
  intros H.
  assert (E : forwarded (current_session
                (((((downstream w ++ [OpenStream])
                    ++ [SendMessage (Request_destination destination)])
                   ++ [SendMessage (Request_payload payload)])
                  ++ [StreamEnd]) ++ [RecvMessage]))
              = [Request_destination destination; Request_payload payload]).
  { rewrite <- !app_assoc. apply forwarded_session. }
  run_install.
  destruct (url_scheme env s =? EmptyString)%string.
  - destruct (resolve env s) as [p|]; [|discriminate].
    injection H as <-. run_install. rewrite E.
    rewrite <- !app_assoc.
    destruct (peer client _); reflexivity.
  - injection H as <-. run_install. rewrite E.
    rewrite <- !app_assoc.
    destruct (peer client _); reflexivity.
Qed.


Lemma iterate_spec_blocks : forall n fuel f,
  length f <= n ->
  length f < fuel ->
  iterate _generate_io_chunks fuel (Reading f)
  = Some ((map data_message (spec_blocks_upto n f), None), Finished).
Proof.
  pose proof CHUNK_SIZE_pos as Hpos.
  induction n as [|n IH]; intros fuel f Hn Hf;
    (destruct fuel as [|fuel]; [lia|]);
    cbn [iterate _generate_io_chunks spec_blocks_upto];
    unfold read_block, read.
  - destruct f; [|cbn [length] in Hn; lia].
    rewrite firstn_nil. reflexivity.
  - destruct f as [|b f']; [rewrite firstn_nil; reflexivity|].
    destruct (firstn CHUNK_SIZE (b :: f')) as [|x chunk] eqn:Hfirst.
    { destruct CHUNK_SIZE; [lia | discriminate]. }
    rewrite IH.
    + reflexivity.
    + rewrite length_skipn. cbn [length] in *. lia.
    + rewrite length_skipn. cbn [length] in *. lia.
Qed.

Lemma drain_io_spec f : drain_io f = (map data_message (spec_blocks f), None).
Proof.
  unfold drain_io, spec_blocks.
  rewrite (iterate_spec_blocks (length f) (S (length f)) f) by lia.
  reflexivity.
Qed.

Lemma drain_ipa_spec env ipa_path :
  drain_ipa env ipa_path
  = match open_file env ipa_path with
    | Some f => (map data_message (spec_blocks f), None)
    | None => ([], Some (FileNotFoundError ipa_path))
    end.
Proof.
  unfold drain_ipa, spec_blocks.
  destruct (open_file env ipa_path) as [f|] eqn:Hopen.
  - rewrite (iterate_created _ _ _ _ Hopen), iterate_opened.
    rewrite (iterate_spec_blocks (length f) (S (length f)) f) by lia.
    reflexivity.
  - cbn [iterate _generate_ipa_chunks]. now rewrite Hopen.
Qed.

Lemma send_all_run : forall ms w,
  send_all ms w
  = (Ok tt, mkWorld (downstream w ++ map SendMessage ms)
                    (inbound w) (upstream w)).
Proof.
  induction ms as [|m ms IH]; intros w.
  - cbn. rewrite app_nil_r. destruct w; reflexivity.
  - cbn [send_all map]. run_install. rewrite IH. cbn [downstream inbound upstream].
    now rewrite <- app_assoc.
Qed.

Lemma current_session_sends : forall ms acc tail,
  fold_left (fun acc e => match e with
                          | OpenStream => []
                          | _ => acc ++ [e]
                          end) (map SendMessage ms ++ tail) acc
  = fold_left (fun acc e => match e with
                            | OpenStream => []
                            | _ => acc ++ [e]
                            end) tail (acc ++ map SendMessage ms).
Proof.
  induction ms as [|m ms IH]; intros acc tail.
  - cbn. now rewrite app_nil_r.
  - cbn [map app fold_left]. rewrite IH. now rewrite <- app_assoc.
Qed.

Lemma forwarded_sends : forall ms tail,
  forwarded (map SendMessage ms ++ tail) = ms ++ forwarded tail.
Proof.
  induction ms as [|m ms IH]; intros tail; [reflexivity|].
  cbn. f_equal. apply IH.
Qed.

(** What the peer has been sent when the response to a drained sequence is
    read. *)
Lemma forwarded_drained evs ms :
  forwarded (current_session
               (evs ++ OpenStream :: map SendMessage ms
                    ++ [StreamEnd; RecvMessage]))
  = ms.
Proof.
  rewrite current_session_opened. unfold current_session.
  rewrite current_session_sends. cbn [fold_left app].
  rewrite <- app_assoc, forwarded_sends. cbn. apply app_nil_r.
Qed.

(** The code against the words of the specification. *)
Lemma install_meets_spec env client bundle destination w :
  _install_to_destination env client bundle destination w
  = spec_install env client bundle destination w.
Proof.
  destruct bundle as [s|io]; unfold spec_install.
  - destruct (url_scheme env s =? EmptyString)%string eqn:Hs.
    + destruct (resolve env s) as [p|] eqn:Hr; cbn [option_map].
      * apply install_string_session. now rewrite Hs, Hr.
      * run_install. rewrite Hs, Hr. destruct w; reflexivity.
    + apply install_string_session. now rewrite Hs.
  - run_install. rewrite drain_io_spec. cbn [fst snd].
    rewrite send_all_run. run_install.
    pose proof (forwarded_drained (downstream w)
                  (Request_destination destination
                     :: map data_message (spec_blocks io))) as E.
    cbn [map app] in E.
    rewrite <- !app_assoc. cbn [app]. rewrite E.
    unfold respond, artifact_of.
    destruct (peer client _); reflexivity.
Qed.

(** C8.  Each of the five installers is the one shared algorithm,
    [_install_to_destination], at its own destination, for every client,
    bundle and state of the streams; and that algorithm is the install
    algorithm of the specification with the destination as its only
    parameter. *)
Theorem C8_installers_share_one_algorithm env client bundle w :
  (install env client bundle w
   = _install_to_destination env client bundle APP w
   /\ install_xctest env client bundle w
      = _install_to_destination env client bundle XCTEST w
   /\ install_dylib env client bundle w
      = _install_to_destination env client bundle DYLIB w
   /\ install_dsym env client bundle w
      = _install_to_destination env client bundle DSYM w
   /\ install_framework env client bundle w
      = _install_to_destination env client bundle FRAMEWORK w)
  /\ (install env client bundle w = spec_install env client bundle APP w
      /\ install_xctest env client bundle w
         = spec_install env client bundle XCTEST w
      /\ install_dylib env client bundle w
         = spec_install env client bundle DYLIB w
      /\ install_dsym env client bundle w
         = spec_install env client bundle DSYM w
      /\ install_framework env client bundle w
         = spec_install env client bundle FRAMEWORK w).
Proof.
  split; [repeat split|].
  unfold install, install_xctest, install_dylib, install_dsym,
    install_framework.
  repeat split; apply install_meets_spec.
Qed.

(** ** The relay *)

(** C1, in the form that holds of the code. When the client is not local and
    the first payload message has none of Url, FilePath and RawBytes
    populated, [daemon] fails with the unrecognised-payload error. The
    destination message, sent before the payload is looked at, is the only
    message forwarded to the peer: the payload message is not forwarded, the
    stream is not ended, no response is read and none is written back. *)
Theorem C1_unrecognised_payload
        env client w destination_message payload_message rest :
  is_local client = false ->
  inbound w = destination_message :: payload_message :: rest ->
  get_url (get_payload payload_message) = EmptyString ->
  get_file_path (get_payload payload_message) = EmptyString ->
  get_data (get_payload payload_message) = [] ->
  fst (daemon env client w) = Raise UnrecognizedPayloadError
  /\ downstream (snd (daemon env client w))
     = downstream w ++ [OpenStream; SendMessage destination_message]
  /\ forwarded (current_session (downstream (snd (daemon env client w))))
     = [destination_message]
  /\ upstream (snd (daemon env client w)) = upstream w.
Proof.
  intros Hlocal Hin Hurl Hpath Hdata.
  assert (E : daemon env client w
              = (Raise UnrecognizedPayloadError,
                 mkWorld (downstream w
                          ++ [OpenStream; SendMessage destination_message])
                         rest (upstream w))).
  { run_install. rewrite Hin. run_install.
    rewrite Hlocal, Hurl, Hpath, Hdata. run_install.
    now rewrite <- app_assoc. }
  rewrite E. cbn [fst snd downstream upstream].
  repeat split. now rewrite current_session_opened.
Qed.

(** ** The claims at sample inputs *)

Lemma C1_witness :
  fst (relay_empty_payload false) = Raise UnrecognizedPayloadError
  /\ downstream (snd (relay_empty_payload false))
     = [] ++ [OpenStream; SendMessage (Request_destination APP)]
  /\ forwarded (current_session (downstream (snd (relay_empty_payload false))))
     = [Request_destination APP]
  /\ upstream (snd (relay_empty_payload false)) = [].
Proof.
  refine (C1_unrecognised_payload
            sample_env (sample_peer false) (fresh_world empty_payload_session)
            (Request_destination APP) (Request_payload Payload_unset) []
            _ _ _ _ _); reflexivity.
Defined.

(** With a remote client the relay fails, but the destination message has
    reached the peer; with a local client it does not fail and the payload
    message is forwarded as it is. *)
Lemma C1_counterexample :
  fst (relay_empty_payload false) = Raise UnrecognizedPayloadError
  /\ forwarded (downstream (snd (relay_empty_payload false)))
     = [Request_destination APP]
  /\ forwarded (downstream (snd (relay_empty_payload false))) <> []
  /\ fst (relay_empty_payload true) = Ok tt
  /\ forwarded (downstream (snd (relay_empty_payload true)))
     = empty_payload_session.
Proof.
  repeat split; try (vm_compute; reflexivity).
  vm_compute. discriminate.
Qed.

Lemma C4_witness :
  exists chunks,
    iterate _generate_io_chunks 11 (Reading ten_bytes)
    = Some ((map data_message chunks, None), Finished)
    /\ iterate (_generate_ipa_chunks (open_file sample_env)) 11
               (Created "/home/user/app.ipa")
       = Some ((map data_message chunks, None), Opened Finished)
    /\ drain_io ten_bytes = (map data_message chunks, None)
    /\ concat chunks = ten_bytes
    /\ length (concat chunks) = length ten_bytes
    /\ Forall (fun c => 0 < length c <= CHUNK_SIZE) chunks
    /\ (forall k, k < length chunks ->
          nth k chunks []
          = firstn CHUNK_SIZE (skipn (k * CHUNK_SIZE) ten_bytes))
    /\ skipn (length chunks * CHUNK_SIZE) ten_bytes = []
    /\ N.of_nat CHUNK_SIZE = 16384%N
    /\ _generate_io_chunks Finished = (StopAsyncIteration, Finished)
    /\ _generate_ipa_chunks (open_file sample_env) (Opened Finished)
       = (StopAsyncIteration, Opened Finished).
Proof.
  refine (C4_fixed_block_chunks (open_file sample_env) "/home/user/app.ipa"
                                ten_bytes 11 _ _).
  - reflexivity.
  - vm_compute. lia.
Defined.

Lemma C5_witness : basename "/tmp/x.dylib" = "x.dylib".
Proof.
  refine (proj1 (proj2 (proj2 (proj2 (proj2 (C5_dylib_name_hint_first
                                               sample_env "/tmp/x.dylib")))))
                "/tmp" "x.dylib" _ _); reflexivity.
Defined.


(** ** Scenarios of the specification *)

(** Scenario A: a 10-byte .ipa for destination App is one RawBytes message
    of 10 bytes. *)
Example scenario_A_chunks :
  _generate_binary_chunks sample_env "/home/user/app.ipa" APP
  = Ok ([data_message ten_bytes], None).
Proof. vm_compute. reflexivity. Qed.

(** Scenario C: a remote relay given a dylib by its path forwards the
    regenerated sequence, the name hint and then the gzip chunks, and never
    the path. *)
Example scenario_C_relay :
  forwarded (downstream (snd (daemon sample_env (sample_peer false)
     (fresh_world [Request_destination DYLIB;
                   Request_payload (Payload_file_path "/tmp/x.dylib")]))))
  = [Request_destination DYLIB; Request_name_hint "x.dylib";
     data_message (B "gzip-1"); data_message (B "gzip-2")].
Proof. vm_compute. reflexivity. Qed.

End InstallFacts.

(* ===================================================================== *)
(** * Further properties of the companion spawner *)
(* ===================================================================== *)

Module SpawnerExtra.

Import Json Spawner SpawnerSpec SpawnerFacts Shutdown.
Local Open Scope string_scope.
Local Open Scope list_scope.

(** ** The handshake loop *)

Lemma update_of_nonempty line update :
  update_of line = Some update -> bytes_truthy line = true.
Proof.
  destruct line; [|reflexivity].
  vm_compute. discriminate.
Qed.

(** The value [_read_stream] returns was announced, unless it is the initial
    zero. *)
Lemma read_stream_ok_inv : forall out port,
  _read_stream out = Ok port ->
  port = JInt 0
  \/ exists skipped line rest,
       out = skipped ++ line :: rest
       /\ forallb falsy_line skipped = true
       /\ announced line = Some port.
Proof.
  induction out as [|l out IH]; intros port H.
  - left. cbn in H. congruence.
  - cbn [_read_stream] in H.
    destruct (bytes_truthy l) eqn:Hl; [|left; congruence].
    destruct (bytes_decode l) as [text|] eqn:Hd; [|discriminate].
    destruct (loads text) as [update|] eqn:Hj; [|discriminate].
    destruct (truthy update) eqn:Ht.
    + right. exists [], l, out. repeat split.
      unfold announced, update_of. rewrite Hd, Hj.
      destruct update; try discriminate. cbn [getitem] in H.
      destruct (dict_get (U "grpc_port") members); congruence.
    + destruct (IH _ H) as [E | (skipped & line & rest & E & Hs & Ha)];
        [now left|].
      right. exists (l :: skipped), line, rest. repeat split.
      * cbn [app]. now rewrite E.
      * cbn [forallb]. rewrite Hs, andb_true_r.
        unfold falsy_line, update_of. now rewrite Hl, Hd, Hj, Ht.
      * exact Ha.
Qed.

(** X1.  The handshake is decided by the first line that is not skipped:
    whatever the companion prints after it is never read and does not change
    what [_read_stream] returns or raises. *)
Theorem X1_first_unskipped_line_decides skipped line rest rest' :
  forallb falsy_line skipped = true ->
  falsy_line line = false ->
  _read_stream (skipped ++ line :: rest)
  = _read_stream (skipped ++ line :: rest').
Proof.
  intros Hs Hl. rewrite !(read_stream_skip_all _ _ Hs).
  cbn [_read_stream]. unfold falsy_line, update_of in Hl.
  destruct (bytes_truthy line); [|reflexivity].
  destruct (bytes_decode line) as [text|]; [|reflexivity].
  destruct (loads text) as [update|]; [|reflexivity].
  destruct (truthy update); [reflexivity | discriminate].
Qed.

Lemma X1_witness :
  _read_stream ([B ("{}" ++ nl)] ++ port_line "10882" :: [B ("no" ++ nl)])
  = _read_stream ([B ("{}" ++ nl)] ++ port_line "10882" :: []).
Proof.
  refine (X1_first_unskipped_line_decides
            [B ("{}" ++ nl)] (port_line "10882") [B ("no" ++ nl)] [] _ _);
    vm_compute; reflexivity.
Defined.

(** X2.  A line that decodes to a truthy JSON value without the field makes
    [spawn_companion] raise what the subscript raises: [KeyError] with the
    key [grpc_port] for an object that lacks it, [TypeError] for a value that
    is not an object (a string, a number, a list, [true]).  Neither is
    turned into the spawner's own exception. *)
Theorem X2_missing_key_and_non_object
        logs os target_udid st p skipped line rest update :
  launched logs os st target_udid p ->
  stdout p = Some (skipped ++ line :: rest) ->
  forallb falsy_line skipped = true ->
  update_of line = Some update ->
  truthy update = true ->
  (forall members, update = JObj members ->
     dict_get (U "grpc_port") members = None ->
     fst (spawn_companion logs os target_udid st)
     = Raise (KeyError "grpc_port"))
  /\ ((forall members, update <> JObj members) ->
      fst (spawn_companion logs os target_udid st) = Raise TypeError).
Proof.
  intros Hl Hout Hs Hu Ht.
  rewrite (spawn_result_launched _ _ _ _ _ Hl).
  unfold handshake. rewrite Hout, (read_stream_skip_all _ _ Hs).
  cbn [_read_stream]. rewrite (update_of_nonempty _ _ Hu).
  unfold update_of in Hu.
  destruct (bytes_decode line) as [text|]; [|discriminate].
  rewrite Hu, Ht. split.
  - intros members -> Hg. cbn [getitem]. now rewrite Hg.
  - intros Hn. destruct update; try reflexivity.
    now destruct (Hn members).
Qed.

Lemma X2_witness :
  fst (spawn_fake idb_companion (Some stdout_hostname))
  = Raise (KeyError "grpc_port").
Proof.
  refine (proj1 (X2_missing_key_and_non_object
                   idb_logs (fake_os (Some stdout_hostname)) "UDID1"
                   (fresh idb_companion)
                   (fake_process (Some stdout_hostname))
                   [] (B ("{" ++ dq ++ "hostname" ++ dq ++ ": " ++ dq ++ "mac"
                              ++ dq ++ "}" ++ nl)) []
                   (JObj [(U "hostname", JStr (U "mac"))])
                   (fake_launched _) _ _ _ _)
                [(U "hostname", JStr (U "mac"))] _ _);
    vm_compute; reflexivity.
Defined.

(** X3.  [spawn_companion] returns a port only when a process was created
    and one line of its output, preceded by skipped lines only, is a JSON
    object whose [grpc_port] is that port; the port is truthy, and the new
    process is the last entry of the registry. *)
Theorem X3_returned_port_was_announced logs os target_udid st port :
  fst (spawn_companion logs os target_udid st) = Ok port ->
  exists p skipped line rest,
    launched logs os st target_udid p
    /\ stdout p = Some (skipped ++ line :: rest)
    /\ forallb falsy_line skipped = true
    /\ announced line = Some port
    /\ truthy port = true
    /\ registry (snd (spawn_companion logs os target_udid st))
       = registry st ++ [p].
Proof.
  intros Hok.
  destruct (spawn_cases logs os target_udid st)
    as [[p Hl] | [_ (e' & tr & E)]]; [|rewrite E in Hok; discriminate].
  rewrite (spawn_launched _ _ _ _ _ Hl) in Hok |- *. cbn [fst snd] in *.
  pose proof (handshake_ok_truthy _ _ Hok) as Ht.
  unfold handshake in Hok.
  destruct (stdout p) as [out|] eqn:Hout; [|discriminate].
  destruct (_read_stream out) as [v|e] eqn:Hr; [|discriminate].
  destruct (truthy v); [|discriminate]. injection Hok as ->.
  destruct (read_stream_ok_inv _ _ Hr)
    as [-> | (skipped & line & rest & -> & Hs & Ha)]; [discriminate|].
  exists p, skipped, line, rest. repeat split; try assumption; apply Hl.
Qed.

Lemma X3_witness :
  exists p skipped line rest,
    launched idb_logs (fake_os (Some stdout_empty_object))
             (fresh idb_companion) "UDID1" p
    /\ stdout p = Some (skipped ++ line :: rest)
    /\ forallb falsy_line skipped = true
    /\ announced line = Some (JInt 10882)
    /\ truthy (JInt 10882) = true
    /\ registry (snd (spawn_fake idb_companion (Some stdout_empty_object)))
       = registry (fresh idb_companion) ++ [p].
Proof.
  refine (X3_returned_port_was_announced
            idb_logs (fake_os (Some stdout_empty_object)) "UDID1"
            (fresh idb_companion) (JInt 10882) _).
  vm_compute. reflexivity.
Defined.

(** ** Effects and registry of one call *)

(** X4.  Whatever happens, [spawn_companion] makes the log directory at most
    once, opens the log file at most once and tries to create the process at
    most once, in this order; nothing is retried, and the log file is closed
    exactly when the process creation was tried.  So the effects of a call
    are one of four sequences. *)
Theorem X4_effects_of_one_spawn logs os target_udid st :
  exists effects,
    trace (snd (spawn_companion logs os target_udid st))
    = trace st ++ effects
    /\ In effects
          [[];
           [Makedirs logs];
           [Makedirs logs; OpenAppend (log_file logs target_udid)];
           [Makedirs logs; OpenAppend (log_file logs target_udid);
            Exec (command (companion_path (self st)) target_udid);
            CloseFile (log_file logs target_udid)]].
Proof.
  destruct (string_dec (companion_path (self st)) EmptyString) as [Hp|Hp].
  { exists []. rewrite (spawn_unconfigured logs os target_udid st Hp).
    cbn. rewrite app_nil_r. auto. }
  destruct (os_makedirs os logs) as [e|] eqn:Hm.
  { eexists. rewrite (spawn_makedirs_fails logs os target_udid st e Hp Hm).
    cbn [snd trace]. split; [reflexivity|]. cbn. auto. }
  destruct (os_open_append os (log_file logs target_udid)) as [e|] eqn:Ho.
  { eexists. rewrite (spawn_open_fails logs os target_udid st e Hp Hm Ho).
    cbn [snd trace]. split; [reflexivity|]. cbn. auto. }
  destruct (os_exec os (command (companion_path (self st)) target_udid))
    as [e|p] eqn:He.
  { eexists. rewrite (spawn_exec_fails logs os target_udid st e Hp Hm Ho He).
    cbn [snd trace]. split; [reflexivity|]. cbn. auto. }
  eexists.
  rewrite (spawn_launched logs os target_udid st p
             (conj Hp (conj Hm (conj Ho He)))).
  cbn [snd trace]. split; [reflexivity|]. cbn. auto.
Qed.

(** X5.  [spawn_companion] never removes or reorders registry entries and
    never changes the configured path: after a call the registry is the one
    before, followed by at most one process, the one the operating system
    created for this call. *)
Theorem X5_registry_only_grows logs os target_udid st :
  companion_path (self (snd (spawn_companion logs os target_udid st)))
  = companion_path (self st)
  /\ (registry (snd (spawn_companion logs os target_udid st)) = registry st
      \/ exists p,
           os_exec os (command (companion_path (self st)) target_udid) = inr p
           /\ registry (snd (spawn_companion logs os target_udid st))
              = registry st ++ [p]).
Proof.
  destruct (spawn_cases logs os target_udid st)
    as [[p Hl] | [_ (e' & tr & E)]].
  - rewrite (spawn_launched _ _ _ _ _ Hl). split; [reflexivity|].
    right. exists p. split; [apply Hl | reflexivity].
  - rewrite E. split; [reflexivity | now left].
Qed.

(** X6.  A process created without a stdout pipe makes [spawn_companion]
    raise its own exception with the message process has no stdout; the
    process is in the registry all the same, and the log file was closed. *)
Theorem X6_process_without_stdout logs os target_udid st p :
  launched logs os st target_udid p ->
  stdout p = None ->
  spawn_companion logs os target_udid st
  = (Raise (CompanionSpawnerException "process has no stdout"),
     mkState (mkSpawner (companion_path (self st)) (registry st ++ [p]))
             (trace st
              ++ [Makedirs logs; OpenAppend (log_file logs target_udid);
                  Exec (command (companion_path (self st)) target_udid);
                  CloseFile (log_file logs target_udid)])).
Proof.
  intros Hl Hout. rewrite (spawn_launched _ _ _ _ _ Hl).
  unfold handshake. rewrite Hout. reflexivity.
Qed.

Lemma X6_witness :
  spawn_fake idb_companion None
  = (Raise (CompanionSpawnerException "process has no stdout"),
     mkState (mkSpawner idb_companion ([] ++ [fake_process None]))
             ([] ++ [Makedirs idb_logs; OpenAppend (log_file idb_logs "UDID1");
                     Exec (command idb_companion "UDID1");
                     CloseFile (log_file idb_logs "UDID1")])).
Proof.
  refine (X6_process_without_stdout
            idb_logs (fake_os None) "UDID1" (fresh idb_companion)
            (fake_process None) (fake_launched _) _).
  reflexivity.
Defined.

(** X7.  An error of the operating system leaves [spawn_companion] as it
    is, with the registry unchanged: when the log directory cannot be made
    nothing else is tried; when the log file cannot be opened no process is
    created; when the process cannot be created the log file is closed
    again. *)
Theorem X7_os_errors_propagate logs os target_udid st e :
  companion_path (self st) <> EmptyString ->
  (os_makedirs os logs = Some e ->
   spawn_companion logs os target_udid st
   = (Raise e, mkState (self st) (trace st ++ [Makedirs logs])))
  /\ (os_makedirs os logs = None ->
      os_open_append os (log_file logs target_udid) = Some e ->
      spawn_companion logs os target_udid st
      = (Raise e,
         mkState (self st)
                 (trace st ++ [Makedirs logs;
                               OpenAppend (log_file logs target_udid)])))
  /\ (os_makedirs os logs = None ->
      os_open_append os (log_file logs target_udid) = None ->
      os_exec os (command (companion_path (self st)) target_udid) = inl e ->
      spawn_companion logs os target_udid st
      = (Raise e,
         mkState (self st)
                 (trace st
                  ++ [Makedirs logs; OpenAppend (log_file logs target_udid);
                      Exec (command (companion_path (self st)) target_udid);
                      CloseFile (log_file logs target_udid)]))).
Proof.
  intros Hp. split; [|split].
  - intros Hm. exact (spawn_makedirs_fails logs os target_udid st e Hp Hm).
  - intros Hm Ho. exact (spawn_open_fails logs os target_udid st e Hp Hm Ho).
  - intros Hm Ho He.
    exact (spawn_exec_fails logs os target_udid st e Hp Hm Ho He).
Qed.

Lemma X7_witness :
  spawn_companion idb_logs read_only_os "UDID1" (fresh idb_companion)
  = (Raise (OSError "Read-only file system"),
     mkState (self (fresh idb_companion)) ([] ++ [Makedirs idb_logs])).
Proof.
  refine (proj1 (X7_os_errors_propagate
                   idb_logs read_only_os "UDID1" (fresh idb_companion)
                   (OSError "Read-only file system") _) _).
  - discriminate.
  - reflexivity.
Defined.

(** X8.  Two calls that each create a process leave two registry entries,
    in the order of the calls, whether the targets differ or are the same:
    nothing is looked up or replaced, and the outcome of either handshake
    plays no part. *)
Theorem X8_two_spawns_two_entries
        logs os1 os2 target_udid1 target_udid2 st p1 p2 :
  launched logs os1 st target_udid1 p1 ->
  launched logs os2 (snd (spawn_companion logs os1 target_udid1 st))
           target_udid2 p2 ->
  registry (snd (spawn_companion logs os2 target_udid2
                   (snd (spawn_companion logs os1 target_udid1 st))))
  = registry st ++ [p1; p2].
Proof.
  intros H1 H2. rewrite (spawn_launched _ _ _ _ _ H2).
  rewrite (spawn_launched _ _ _ _ _ H1).
  unfold registry, with_process. cbn [snd self companion_processes].
  now rewrite <- app_assoc.
Qed.

Lemma X8_witness :
  registry (snd (spawn_companion idb_logs (os_with_pid 2 (Some stdout_closed))
                   "UDID1"
                   (snd (spawn_companion idb_logs
                           (os_with_pid 1 (Some stdout_empty_object))
                           "UDID1" (fresh idb_companion)))))
  = registry (fresh idb_companion)
    ++ [mkProcess 1 (Some stdout_empty_object);
        mkProcess 2 (Some stdout_closed)].
Proof.
  refine (X8_two_spawns_two_entries
            idb_logs (os_with_pid 1 (Some stdout_empty_object))
            (os_with_pid 2 (Some stdout_closed)) "UDID1" "UDID1"
            (fresh idb_companion) _ _ _ _).
  - unfold launched. cbn. split; [discriminate | repeat split].
  - unfold launched. cbn. split; [discriminate | repeat split].
Defined.

(** ** Shutdown *)

Lemma kill_each_returns sys : forall processes sent,
  (forall s q, In q processes -> os_kill sys s (pid q) = None) ->
  kill_each sys processes sent = (Ok tt, sent ++ kills processes).
Proof.
  induction processes as [|p rest IH]; intros sent H.
  - cbn. now rewrite app_nil_r.
  - cbn [kill_each kills map]. unfold bind, signal.
    rewrite (H sent p) by now left.
    rewrite IH by (intros s q Hq; apply H; now right).
    unfold kills. now rewrite <- app_assoc.
Qed.

Lemma kill_each_raises sys p e after : forall before sent,
  (forall s q, In q before -> os_kill sys s (pid q) = None) ->
  os_kill sys (sent ++ kills before) (pid p) = Some e ->
  kill_each sys (before ++ p :: after) sent
  = (Raise e, sent ++ kills (before ++ [p])).
Proof.
  induction before as [|b before IH]; intros sent H He.
  - cbn [app kill_each kills map] in *. unfold bind, signal.
    rewrite app_nil_r in He. now rewrite He.
  - cbn [app kill_each kills map] in *. unfold bind, signal.
    rewrite (H sent b) by now left.
    rewrite IH.
    + unfold kills. now rewrite <- app_assoc.
    + intros s q Hq. apply H. now right.
    + unfold kills in *. now rewrite <- app_assoc.
Qed.

Lemma terminate_each_returns sys : forall processes sent,
  (forall s q, In q processes -> process_terminate sys s (pid q) = None) ->
  terminate_each sys processes sent = (Ok tt, sent ++ terminations processes).
Proof.
  induction processes as [|p rest IH]; intros sent H.
  - cbn. now rewrite app_nil_r.
  - cbn [terminate_each terminations map]. unfold bind, signal.
    rewrite (H sent p) by now left.
    rewrite IH by (intros s q Hq; apply H; now right).
    unfold terminations. now rewrite <- app_assoc.
Qed.

Lemma terminate_each_raises sys p e after : forall before sent,
  (forall s q, In q before -> process_terminate sys s (pid q) = None) ->
  process_terminate sys (sent ++ terminations before) (pid p) = Some e ->
  terminate_each sys (before ++ p :: after) sent
  = (Raise e, sent ++ terminations (before ++ [p])).
Proof.
  induction before as [|b before IH]; intros sent H He.
  - cbn [app terminate_each terminations map] in *. unfold bind, signal.
    rewrite app_nil_r in He. now rewrite He.
  - cbn [app terminate_each terminations map] in *. unfold bind, signal.
    rewrite (H sent b) by now left.
    rewrite IH.
    + unfold terminations. now rewrite <- app_assoc.
    + intros s q Hq. apply H. now right.
    + unfold terminations in *. now rewrite <- app_assoc.
Qed.

(** X9.  When no call to [os.kill] raises, [kill_spawned_companion] sends
    SIGTERM to every registry entry, once each, in registry order, and to
    nothing else. *)
Theorem X9_kill_reaches_every_entry sys self sent :
  (forall s q, In q (companion_processes self) ->
               os_kill sys s (pid q) = None) ->
  kill_spawned_companion sys self sent
  = (Ok tt, sent ++ kills (companion_processes self)).
Proof. intros H. now apply kill_each_returns. Qed.

Lemma X9_witness :
  kill_spawned_companion obliging three_processes []
  = (Ok tt, [] ++ kills (companion_processes three_processes)).
Proof.
  refine (X9_kill_reaches_every_entry obliging three_processes [] _).
  reflexivity.
Defined.

(** X10.  [kill_spawned_companion] stops at the first call to [os.kill] that
    raises: the exception leaves the function, the entries before that one
    and that one were signalled, and the entries after it are not
    signalled at all. *)
Theorem X10_kill_stops_at_first_error sys self sent before p after e :
  companion_processes self = before ++ p :: after ->
  (forall s q, In q before -> os_kill sys s (pid q) = None) ->
  os_kill sys (sent ++ kills before) (pid p) = Some e ->
  kill_spawned_companion sys self sent
  = (Raise e, sent ++ kills (before ++ [p])).
Proof.
  intros Hreg Hb He. unfold kill_spawned_companion. rewrite Hreg.
  now apply kill_each_raises.
Qed.

Lemma X10_witness :
  kill_spawned_companion second_is_gone three_processes []
  = (Raise (OSError "No such process"),
     [] ++ kills ([mkProcess 1 None] ++ [mkProcess 2 None])).
Proof.
  refine (X10_kill_stops_at_first_error
            second_is_gone three_processes [] [mkProcess 1 None]
            (mkProcess 2 None) [mkProcess 3 None]
            (OSError "No such process") _ _ _).
  - reflexivity.
  - intros s q [<- | []]. reflexivity.
  - reflexivity.
Defined.

(** X11.  A process is signalled by [kill_spawned_companion] as soon as it
    was created, whatever became of its handshake: after a call of
    [spawn_companion] that created process [p], returning a port or
    raising, the hook signals the earlier entries and then [p]. *)
Theorem X11_spawned_process_is_killed sys logs os target_udid st p :
  launched logs os st target_udid p ->
  (forall s pid, os_kill sys s pid = None) ->
  kill_spawned_companion sys
    (self (snd (spawn_companion logs os target_udid st))) []
  = (Ok tt, kills (registry st) ++ [Kill (pid p)]).
Proof.
  intros Hl Hk. rewrite (spawn_launched _ _ _ _ _ Hl).
  cbn [snd self]. unfold kill_spawned_companion, with_process.
  cbn [companion_processes].
  rewrite kill_each_returns by (intros; apply Hk).
  unfold kills, registry. now rewrite map_app.
Qed.

Lemma X11_witness :
  kill_spawned_companion obliging
    (self (snd (spawn_fake idb_companion (Some stdout_closed)))) []
  = (Ok tt, kills (registry (fresh idb_companion))
            ++ [Kill (pid (fake_process (Some stdout_closed)))]).
Proof.
  refine (X11_spawned_process_is_killed
            obliging idb_logs (fake_os (Some stdout_closed)) "UDID1"
            (fresh idb_companion) (fake_process (Some stdout_closed))
            (fake_launched _) _).
  reflexivity.
Defined.

(** X12.  [close] calls [terminate] on the registry entries in order and
    on nothing else: on all of them when no call raises; otherwise it stops
    at the first call that raises and leaves the later entries alone. *)
Theorem X12_close_terminates_in_order sys self sent :
  ((forall s q, In q (companion_processes self) ->
                process_terminate sys s (pid q) = None) ->
   close sys self sent
   = (Ok tt, sent ++ terminations (companion_processes self)))
  /\ (forall before p after e,
        companion_processes self = before ++ p :: after ->
        (forall s q, In q before -> process_terminate sys s (pid q) = None) ->
        process_terminate sys (sent ++ terminations before) (pid p) = Some e ->
        close sys self sent
        = (Raise e, sent ++ terminations (before ++ [p]))).
Proof.
  split.
  - intros H. now apply terminate_each_returns.
  - intros before p after e Hreg Hb He. unfold close. rewrite Hreg.
    now apply terminate_each_raises.
Qed.

Lemma X12_witness :
  close obliging three_processes []
  = (Ok tt, [] ++ terminations (companion_processes three_processes)).
Proof.
  refine (proj1 (X12_close_terminates_in_order obliging three_processes [])
                _).
  reflexivity.
Defined.

End SpawnerExtra.

(* ===================================================================== *)
(** * Further properties of the install module *)
(* ===================================================================== *)

Module InstallExtra.

Import Install InstallSpec InstallFacts.
Local Open Scope string_scope.
Local Open Scope list_scope.

(** ** Number and size of the blocks *)

(** With reads that return a full block until the end, as [read] has
    them, [length f] bytes are cut into [length f] divided by 16384, rounded
    up, blocks, all full but the last. *)
Lemma full_reads_block_count (f : bytes) :
  snd (drain_io f) = None
  /\ length (fst (drain_io f))
     = (length f + (CHUNK_SIZE - 1)) / CHUNK_SIZE
  /\ (forall k, S k < length (fst (drain_io f)) ->
        exists chunk,
          nth_error (fst (drain_io f)) k = Some (data_message chunk)
          /\ length chunk = CHUNK_SIZE)
  /\ (f = [] -> fst (drain_io f) = []).
Proof.
  pose proof CHUNK_SIZE_pos as Hpos.
  destruct (iterate_blocks (S (length f)) f (Nat.lt_succ_diag_r _))
    as (chunks & Hit & Hcat & Hall & Hend & Hnth).
  unfold drain_io. rewrite Hit. cbn [drained fst snd].
  rewrite length_map.
  assert (Hup : length f <= length chunks * CHUNK_SIZE).
  { apply (f_equal (@length byte)) in Hend.
    rewrite length_skipn in Hend. cbn [length] in Hend. lia. }
  assert (Hlow : forall k, k < length chunks -> k * CHUNK_SIZE < length f).
  { intros k Hk. specialize (Hnth k Hk).
    rewrite Forall_forall in Hall.
    assert (Hin : In (nth k chunks []) chunks) by now apply nth_In.
    apply Hall in Hin. rewrite Hnth in Hin.
    rewrite length_firstn, length_skipn in Hin. lia. }
  split; [reflexivity|]. split; [|split].
  - destruct (length chunks) as [|c] eqn:Hc.
    + cbn [Nat.mul] in Hup. replace (length f) with 0 by lia.
      cbn [Nat.add]. symmetry. apply Nat.div_small. lia.
    + pose proof (Hlow c (Nat.lt_succ_diag_r c)) as Hc0.
      apply Nat.div_unique
        with (r := length f + (CHUNK_SIZE - 1) - CHUNK_SIZE * S c); nia.
  - intros k Hk. exists (nth k chunks []).
    rewrite nth_error_map, (nth_error_nth' chunks []) by lia.
    split; [reflexivity|].
    rewrite Hnth by lia.
    rewrite length_firstn, length_skipn.
    pose proof (Hlow (S k) Hk) as H1. cbn [Nat.mul] in H1. lia.
  - intros ->. destruct chunks as [|c chunks]; [reflexivity|].
    cbn [concat] in Hcat. apply app_eq_nil in Hcat as [-> _].
    inversion Hall as [|? ? [H0 _] ?]. cbn in H0. lia.
Qed.

(** X13.  A file of [length f] bytes is encoded by the .ipa generator, which
    reads it through a buffered file object, as [length f] divided by 16384
    and rounded up RawBytes messages; every message but the last carries
    exactly 16384 bytes; an empty file gives no message at all; and the
    sequence ends without an exception, the generator finished. *)
Theorem X13_number_of_blocks open_file ipa_path f fuel :
  open_file ipa_path = Some f ->
  length f < fuel ->
  exists messages,
    iterate (_generate_ipa_chunks open_file) fuel (Created ipa_path)
    = Some ((messages, None), Opened Finished)
    /\ length messages = (length f + (CHUNK_SIZE - 1)) / CHUNK_SIZE
    /\ (forall k, S k < length messages ->
          exists chunk,
            nth_error messages k = Some (data_message chunk)
            /\ length chunk = CHUNK_SIZE)
    /\ (f = [] -> messages = []).
Proof.
  intros Hopen Hfuel.
  destruct (full_reads_block_count f) as (Hend & Hcount & Hfull & Hempty).
  exists (fst (drain_io f)).
  split; [|split; [exact Hcount | split; [exact Hfull | exact Hempty]]].
  rewrite (iterate_created _ _ _ _ Hopen), iterate_opened.
  rewrite (iterate_spec_blocks (length f) fuel f (Nat.le_refl _) Hfuel).
  rewrite drain_io_spec. reflexivity.
Qed.

Lemma X13_witness :
  exists messages,
    iterate (_generate_ipa_chunks (open_file sample_env)) 11
            (Created "/home/user/app.ipa")
    = Some ((messages, None), Opened Finished)
    /\ length messages = (length ten_bytes + (CHUNK_SIZE - 1)) / CHUNK_SIZE
    /\ (forall k, S k < length messages ->
          exists chunk,
            nth_error messages k = Some (data_message chunk)
            /\ length chunk = CHUNK_SIZE)
    /\ (ten_bytes = [] -> messages = []).
Proof.
  refine (X13_number_of_blocks (open_file sample_env) "/home/user/app.ipa"
                               ten_bytes 11 _ _).
  - reflexivity.
  - vm_compute. lia.
Defined.

(** ** Choosing the encoder *)

Lemma substring_all : forall s, substring 0 (String.length s) s = s.
Proof.
  induction s as [|c s IH]; [reflexivity|]. cbn. now rewrite IH.
Qed.

Lemma substring_skip : forall stem suffix,
  substring (String.length stem) (String.length suffix) (stem ++ suffix)%string
  = suffix.
Proof.
  induction stem as [|c stem IH]; intros suffix.
  - cbn [String.length append]. apply substring_all.
  - cbn [String.length append substring]. apply IH.
Qed.

Lemma substring_split : forall s k,
  k <= String.length s ->
  s = (substring 0 k s ++ substring k (String.length s - k) s)%string.
Proof.
  induction s as [|c s IH]; intros [|k] Hk; cbn [String.length] in *.
  - reflexivity.
  - lia.
  - cbn [substring append Nat.sub]. now rewrite substring_all.
  - cbn [substring append Nat.sub]. f_equal. apply IH. lia.
Qed.

Lemma length_append : forall a b,
  String.length (a ++ b)%string = String.length a + String.length b.
Proof.
  induction a as [|c a IH]; intros b; [reflexivity|].
  cbn [append String.length]. now rewrite IH.
Qed.

(** [endswith] is the suffix test. *)
Lemma endswith_iff s suffix :
  endswith s suffix = true <-> exists stem, s = (stem ++ suffix)%string.
Proof.
  unfold endswith. split.
  - intros H. apply andb_true_iff in H as [Hle Heq].
    apply Nat.leb_le in Hle. apply String.eqb_eq in Heq.
    exists (substring 0 (String.length s - String.length suffix) s).
    pose proof (substring_split s (String.length s - String.length suffix)
                  (Nat.le_sub_l _ _)) as Hsplit.
    replace (String.length s - (String.length s - String.length suffix))
      with (String.length suffix) in Hsplit by lia.
    rewrite Heq in Hsplit. exact Hsplit.
  - intros [stem ->]. rewrite length_append.
    replace (String.length stem + String.length suffix - String.length suffix)
      with (String.length stem) by lia.
    rewrite substring_skip, String.eqb_refl, andb_true_r.
    apply Nat.leb_le. lia.
Qed.

Lemma endswith_false s suffix :
  (forall stem, s <> (stem ++ suffix)%string) -> endswith s suffix = false.
Proof.
  intros H. destruct (endswith s suffix) eqn:E; [|reflexivity].
  apply endswith_iff in E as [stem ->]. now destruct (H stem).
Qed.

Lemma not_suffix s suffix :
  endswith s suffix = false -> forall stem, s <> (stem ++ suffix)%string.
Proof.
  intros H stem ->.
  assert (endswith (stem ++ suffix) suffix = true)
    by (apply endswith_iff; now exists stem).
  congruence.
Qed.

Lemma last_char_app : forall stem suffix c,
  last_char suffix = Some c -> last_char (stem ++ suffix)%string = Some c.
Proof.
  induction stem as [|x stem IH]; intros suffix c H; [exact H|].
  cbn [append last_char].
  destruct (stem ++ suffix)%string eqn:E.
  - destruct stem; [cbn in E; subst; discriminate | discriminate].
  - rewrite <- E. now apply IH.
Qed.

Lemma app_not_ipa stem : endswith (stem ++ ".app") ".ipa" = false.
Proof.
  apply endswith_false. intros stem' E.
  apply (f_equal last_char) in E.
  rewrite (last_char_app stem ".app" "p"%char eq_refl) in E.
  rewrite (last_char_app stem' ".ipa" "a"%char eq_refl) in E.
  discriminate.
Qed.

(** X14.  [_generate_binary_chunks] refuses exactly one combination: the
    destination App with a path that ends neither in .ipa nor in .app; it
    then raises the gRPC error with status FAILED_PRECONDITION carrying the
    path and the destination.  For every other destination it returns a
    generator whatever the path is. *)
Theorem X14_unsupported_bundle env path destination :
  (forall e, _generate_binary_chunks env path destination = Raise e <->
     destination = APP
     /\ (forall stem, path <> (stem ++ ".ipa")%string)
     /\ (forall stem, path <> (stem ++ ".app")%string)
     /\ e = GRPCError_FAILED_PRECONDITION path APP)
  /\ (destination <> APP ->
      exists generator,
        _generate_binary_chunks env path destination = Ok generator).
Proof.
  split.
  - intros e. split.
    + intros H. destruct destination; try discriminate.
      cbn [_generate_binary_chunks] in H.
      destruct (endswith path ".ipa") eqn:Hi; [discriminate|].
      destruct (endswith path ".app") eqn:Ha; [discriminate|].
      injection H as <-. repeat split.
      * intros stem ->.
        assert (endswith (stem ++ ".ipa") ".ipa" = true)
          by (apply endswith_iff; now exists stem).
        congruence.
      * intros stem ->.
        assert (endswith (stem ++ ".app") ".app" = true)
          by (apply endswith_iff; now exists stem).
        congruence.
    + intros (-> & Hi & Ha & ->). cbn [_generate_binary_chunks].
      now rewrite (endswith_false _ _ Hi), (endswith_false _ _ Ha).
  - intros Hd. destruct destination; try (eexists; reflexivity).
    now destruct Hd.
Qed.

(** X15.  The encoders for a .app directory, for debug symbols and for a
    framework give one RawBytes message per chunk of the tar of the single
    path, in the order of the archiver, and end as the archiver ends; the
    encoder for a test bundle does the same with the paths
    [xctest_paths_to_tar] expands the bundle to, and gives no message when
    that expansion raises.  None of them yields a NameHint. *)
Theorem X15_tar_encoders env path :
  (forall stem, path = (stem ++ ".app")%string ->
     _generate_binary_chunks env path APP
     = Ok (map data_message (fst (generate_tar env [path])),
           snd (generate_tar env [path])))
  /\ _generate_binary_chunks env path DSYM
     = Ok (map data_message (fst (generate_tar env [path])),
           snd (generate_tar env [path]))
  /\ _generate_binary_chunks env path FRAMEWORK
     = Ok (map data_message (fst (generate_tar env [path])),
           snd (generate_tar env [path]))
  /\ _generate_binary_chunks env path XCTEST
     = Ok (match xctest_paths_to_tar env path with
           | Ok paths => (map data_message (fst (generate_tar env paths)),
                          snd (generate_tar env paths))
           | Raise e => ([], Some e)
           end).
Proof.
  split; [|split; [|split]]; cbn [_generate_binary_chunks].
  - intros stem ->. rewrite app_not_ipa.
    assert (E : endswith (stem ++ ".app") ".app" = true)
      by (apply endswith_iff; now exists stem).
    now rewrite E, drain_tar_spec.
  - now rewrite drain_tar_spec.
  - now rewrite drain_tar_spec.
  - now rewrite drain_xctest_spec.
Qed.

(** X16.  For the destination App and a path ending in .ipa the generator
    is made without touching the file.  Iterated, it gives the blocks of the
    file, whose concatenation is the file, when the file can be opened; when
    it cannot, it gives no message and ends with the error of opening it. *)
Theorem X16_ipa_encoder env stem :
  (forall f, open_file env (stem ++ ".ipa")%string = Some f ->
     exists chunks,
       _generate_binary_chunks env (stem ++ ".ipa")%string APP
       = Ok (map data_message chunks, None)
       /\ concat chunks = f)
  /\ (open_file env (stem ++ ".ipa")%string = None ->
      _generate_binary_chunks env (stem ++ ".ipa")%string APP
      = Ok ([], Some (FileNotFoundError (stem ++ ".ipa")%string))).
Proof.
  assert (E : endswith (stem ++ ".ipa") ".ipa" = true)
    by (apply endswith_iff; now exists stem).
  split; cbn [_generate_binary_chunks]; rewrite E, drain_ipa_spec.
  - intros f ->.
    destruct (iterate_blocks (S (length f)) f (Nat.lt_succ_diag_r _))
      as (chunks & Hit & Hcat & _).
    exists chunks. split; [|exact Hcat].
    rewrite <- drain_io_spec. unfold drain_io. now rewrite Hit.
  - now intros ->.
Qed.

Lemma X14_witness :
  _generate_binary_chunks sample_env "/tmp/bundle.zip" APP
  = Raise (GRPCError_FAILED_PRECONDITION "/tmp/bundle.zip" APP).
Proof.
  refine (proj2 (proj1 (X14_unsupported_bundle sample_env "/tmp/bundle.zip"
                          APP) _) (conj eq_refl (conj _ (conj _ eq_refl)))).
  - apply not_suffix. vm_compute. reflexivity.
  - apply not_suffix. vm_compute. reflexivity.
Defined.

Lemma X15_witness :
  _generate_binary_chunks sample_env "/tmp/Sample.app" APP
  = Ok (map data_message (fst (generate_tar sample_env ["/tmp/Sample.app"])),
        snd (generate_tar sample_env ["/tmp/Sample.app"])).
Proof.
  refine (proj1 (X15_tar_encoders sample_env "/tmp/Sample.app")
                "/tmp/Sample" _).
  reflexivity.
Defined.

Lemma X16_witness :
  exists chunks,
    _generate_binary_chunks sample_env ("/home/user/app" ++ ".ipa")%string
                            APP
    = Ok (map data_message chunks, None)
    /\ concat chunks = ten_bytes.
Proof.
  refine (proj1 (X16_ipa_encoder sample_env "/home/user/app") ten_bytes _).
  reflexivity.
Defined.

(** ** The relay, beyond the unrecognised payload *)

(** X17.  For a local client, or for a payload that carries a URL, the
    relay forwards the two messages it received as they are, a file path
    included, ends the stream, reads one response and writes it back; it
    reads no further inbound message.  When the peer closes without a
    response it raises and writes nothing back. *)
Theorem X17_relay_passes_through
        env client w destination_message payload_message rest :
  inbound w = destination_message :: payload_message :: rest ->
  is_local client = true
  \/ get_url (get_payload payload_message) <> EmptyString ->
  daemon env client w
  = (match peer client [destination_message; payload_message] with
     | Some _ => Ok tt
     | None => Raise AssertionError
     end,
     mkWorld (downstream w
              ++ [OpenStream; SendMessage destination_message;
                  SendMessage payload_message; StreamEnd; RecvMessage])
             rest
             (match peer client [destination_message; payload_message] with
              | Some response => upstream w ++ [response]
              | None => upstream w
              end)).
Proof.
  intros Hin Hcond.
  assert (Hb : is_local client
               || negb (String.length
                          (get_url (get_payload payload_message)) =? 0)%nat
               = true).
  { destruct Hcond as [-> | Hu]; [reflexivity|].
    destruct (get_url (get_payload payload_message));
      [now destruct Hu | apply orb_true_r]. }
  assert (E : forwarded (current_session
                (((((downstream w ++ [OpenStream])
                    ++ [SendMessage destination_message])
                   ++ [SendMessage payload_message])
                  ++ [StreamEnd]) ++ [RecvMessage]))
              = [destination_message; payload_message]).
  { rewrite <- !app_assoc. cbn [app]. rewrite current_session_opened.
    reflexivity. }
  run_install. rewrite Hin. run_install. rewrite Hb. run_install.
  rewrite E. rewrite <- !app_assoc. cbn [app].
  destruct (peer client _); reflexivity.
Qed.

Lemma X17_witness :
  daemon sample_env (sample_peer true)
         (fresh_world [Request_destination DYLIB;
                       Request_payload (Payload_file_path "/tmp/x.dylib")])
  = (Ok tt,
     mkWorld ([] ++ [OpenStream; SendMessage (Request_destination DYLIB);
                     SendMessage
                       (Request_payload (Payload_file_path "/tmp/x.dylib"));
                     StreamEnd; RecvMessage])
             []
             ([] ++ [mkResponse "App" "abc"])).
Proof.
  refine (X17_relay_passes_through
            sample_env (sample_peer true)
            (fresh_world [Request_destination DYLIB;
                          Request_payload (Payload_file_path "/tmp/x.dylib")])
            (Request_destination DYLIB)
            (Request_payload (Payload_file_path "/tmp/x.dylib")) [] _ _).
  - reflexivity.
  - left. reflexivity.
Defined.

(** X18.  An inbound stream that ends before two messages were received
    makes the relay fail with the assertion error of [none_throws]; no
    stream is opened to the peer and nothing is written back. *)
Theorem X18_relay_needs_two_messages env client w :
  length (inbound w) < 2 ->
  fst (daemon env client w) = Raise AssertionError
  /\ downstream (snd (daemon env client w)) = downstream w
  /\ upstream (snd (daemon env client w)) = upstream w.
Proof.
  intros H. run_install.
  destruct (inbound w) as [|m [|m' rest]] eqn:Hin;
    [| |cbn [length] in H; lia]; run_install; repeat split.
Qed.

Lemma X18_witness :
  fst (daemon sample_env (sample_peer false)
              (fresh_world [Request_destination APP]))
  = Raise AssertionError
  /\ downstream (snd (daemon sample_env (sample_peer false)
                             (fresh_world [Request_destination APP]))) = []
  /\ upstream (snd (daemon sample_env (sample_peer false)
                           (fresh_world [Request_destination APP]))) = [].
Proof.
  refine (X18_relay_needs_two_messages
            sample_env (sample_peer false)
            (fresh_world [Request_destination APP]) _).
  vm_compute. lia.
Defined.

(** X19.  A remote relay given a file path that has no encoder, the
    destination App and a path ending neither in .ipa nor in .app, fails
    with the FAILED_PRECONDITION error after the destination message was
    forwarded; nothing else is sent, and no response is written back. *)
Theorem X19_relay_unsupported_bundle
        env client w destination_message payload_message rest path :
  inbound w = destination_message :: payload_message :: rest ->
  is_local client = false ->
  get_url (get_payload payload_message) = EmptyString ->
  get_file_path (get_payload payload_message) = path ->
  path <> EmptyString ->
  get_destination destination_message = APP ->
  (forall stem, path <> (stem ++ ".ipa")%string) ->
  (forall stem, path <> (stem ++ ".app")%string) ->
  daemon env client w
  = (Raise (GRPCError_FAILED_PRECONDITION path APP),
     mkWorld (downstream w ++ [OpenStream; SendMessage destination_message])
             rest (upstream w)).
Proof.
  intros Hin Hlocal Hurl Hpath Hne Hdest Hi Ha.
  assert (Ht : str_truthy path = true).
  { unfold str_truthy. apply negb_true_iff. now apply String.eqb_neq. }
  run_install. rewrite Hin. run_install.
  rewrite Hlocal, Hurl, Hpath, Hdest, Ht. cbn [String.length Nat.eqb negb orb].
  cbn [_generate_binary_chunks].
  rewrite (endswith_false _ _ Hi), (endswith_false _ _ Ha).
  run_install. now rewrite <- !app_assoc.
Qed.

Lemma X19_witness :
  daemon sample_env (sample_peer false)
         (fresh_world [Request_destination APP;
                       Request_payload (Payload_file_path "/tmp/bundle.zip")])
  = (Raise (GRPCError_FAILED_PRECONDITION "/tmp/bundle.zip" APP),
     mkWorld ([] ++ [OpenStream; SendMessage (Request_destination APP)])
             [] []).
Proof.
  refine (X19_relay_unsupported_bundle
            sample_env (sample_peer false)
            (fresh_world [Request_destination APP;
                          Request_payload
                            (Payload_file_path "/tmp/bundle.zip")])
            (Request_destination APP)
            (Request_payload (Payload_file_path "/tmp/bundle.zip")) []
            "/tmp/bundle.zip" _ _ _ _ _ _ _ _); try reflexivity.
  - discriminate.
  - apply not_suffix. vm_compute. reflexivity.
  - apply not_suffix. vm_compute. reflexivity.
Defined.

(** ** A session without a response *)

(** X20.  When the peer closes the stream without a response,
    [_install_to_destination] for a string bundle raises, on reading the
    name of the missing response, after the whole session was sent: the
    destination, the payload and the stream end. *)
Theorem X20_install_without_response env client s destination w :
  (url_scheme env s <> EmptyString ->
   peer client [Request_destination destination;
                Request_payload (Payload_url s)] = None ->
   _install_to_destination env client (BundleStr s) destination w
   = (Raise AttributeError,
      mkWorld (downstream w ++ session destination (Payload_url s))
              (inbound w) (upstream w)))
  /\ (forall p,
        url_scheme env s = EmptyString -> resolve env s = Some p ->
        peer client [Request_destination destination;
                     Request_payload (Payload_file_path p)] = None ->
        _install_to_destination env client (BundleStr s) destination w
        = (Raise AttributeError,
           mkWorld (downstream w ++ session destination (Payload_file_path p))
                   (inbound w) (upstream w))).
Proof.
  split.
  - intros Hs Hpeer. apply String.eqb_neq in Hs.
    rewrite (install_string_session env client s destination w (Payload_url s))
      by now rewrite Hs.
    now rewrite Hpeer.
  - intros p Hs Hr Hpeer.
    rewrite (install_string_session env client s destination w
               (Payload_file_path p))
      by now rewrite Hs, Hr.
    now rewrite Hpeer.
Qed.

Lemma X20_witness :
  _install_to_destination sample_env (silent_peer false)
                          (BundleStr sample_url) APP (fresh_world [])
  = (Raise AttributeError,
     mkWorld ([] ++ session APP (Payload_url sample_url)) [] []).
Proof.
  refine (proj1 (X20_install_without_response
                   sample_env (silent_peer false) sample_url APP
                   (fresh_world [])) _ _).
  - vm_compute. discriminate.
  - reflexivity.
Defined.

(** ** The name hint *)

Lemma basename_from_no_slash_result : forall p cur,
  no_slash cur = true -> no_slash (basename_from p cur) = true.
Proof.
  induction p as [|c p IH]; intros cur H; [exact H|].
  cbn [basename_from]. destruct (Ascii.eqb c "/") eqn:Hc.
  - apply IH. reflexivity.
  - apply IH. clear IH. induction cur as [|x cur IHc].
    + cbn. now rewrite Hc.
    + cbn [no_slash append] in *. apply andb_true_iff in H as [Hx Hcur].
      now rewrite Hx, IHc.
Qed.

(** X21.  The name hint sent for a dylib never contains a slash, whatever
    the path is, and it is empty for a path that ends in a slash. *)
Theorem X21_name_hint_has_no_slash env path :
  exists hint,
    fst (_generate_dylib_chunks env (NotStarted path))
    = Yield (Request_name_hint hint)
    /\ no_slash hint = true
    /\ (forall dir, path = (dir ++ "/")%string -> hint = EmptyString).
Proof.
  exists (basename path). split; [reflexivity|]. split.
  - unfold basename. now apply basename_from_no_slash_result.
  - intros dir ->. unfold basename. rewrite basename_from_app. reflexivity.
Qed.

Lemma X21_witness :
  exists hint,
    fst (_generate_dylib_chunks sample_env (NotStarted "/tmp/lib/"))
    = Yield (Request_name_hint hint)
    /\ no_slash hint = true
    /\ (forall dir, "/tmp/lib/" = (dir ++ "/")%string -> hint = EmptyString).
Proof.
  exact (X21_name_hint_has_no_slash sample_env "/tmp/lib/").
Defined.

End InstallExtra.
